(** * TailorBlend PWA icon generator (wwwroot/tools/generate-icons.py)

    A shallow embedding of the icon generator and the properties of its
    specification.  Python integers are [Z]; Python floats are IEEE-754
    binary64 values, represented with the [spec_float] type of the
    standard library and its operations at precision 53; Python
    exceptions are an error type; the Pillow image buffers are pixel
    grids with explicit bounds; the output directory is a finite map
    from paths to images.  The import guard of the script and the PNG
    encoding are outside the model, and file-system calls succeed. *)

From stdpp Require Import gmap strings list.
From Stdlib Require Import ZArith Lia Bool Ascii String List SpecFloat.
Import ListNotations.

Local Open Scope Z_scope.

(** ** Python exceptions and the error monad *)

Inductive exn : Type :=
| ValueError
| OverflowError
| ZeroDivisionError
| OSError.

Inductive result (A : Type) : Type :=
| Ok (a : A)
| Raise (e : exn).

Arguments Ok {A} a.
Arguments Raise {A} e.

Definition bind {A B : Type} (r : result A) (k : A -> result B) : result B :=
  match r with
  | Ok a => k a
  | Raise e => Raise e
  end.

Notation "x <- c ;; k" := (bind c (fun x => k))
  (at level 100, c at next level, right associativity).

Definition is_ok {A : Type} (r : result A) : bool :=
  match r with Ok _ => true | Raise _ => false end.

(** A [for] loop whose body may raise: the first exception ends it. *)
Fixpoint for_each {A S : Type} (body : S -> A -> result S) (xs : list A) (s : S)
  : result S :=
  match xs with
  | [] => Ok s
  | x :: xs' => s' <- body s x ;; for_each body xs' s'
  end.

(** [range(n)]: the integers [0 .. n-1], empty when [n <= 0]. *)
Definition range (n : Z) : list Z := map Z.of_nat (seq 0 (Z.to_nat n)).

(** ** Python floats: IEEE-754 binary64 *)

Module PyFloat.

Definition prec : Z := 53.
Definition emax : Z := 1024.

Definition float : Type := spec_float.

Definition mul : float -> float -> float := SFmul prec emax.
Definition add : float -> float -> float := SFadd prec emax.

Definition is_finite (x : float) : bool :=
  match x with
  | S754_zero _ | S754_finite _ _ _ => true
  | _ => false
  end.

(** [float(n)] for a Python int: round to nearest, ties to even;
    OverflowError when the integer is too large for a double. *)
Definition of_int (n : Z) : result float :=
  match binary_normalize prec emax n 0 false with
  | S754_infinity _ => Raise OverflowError
  | x => Ok x
  end.

(** [int(x)] for a Python float: truncation toward zero;
    ValueError on NaN, OverflowError on an infinity. *)
Definition to_int (x : float) : result Z :=
  match x with
  | S754_zero _ => Ok 0
  | S754_finite s m e => Ok (cond_Zopp s (Z.shiftl (Zpos m) e))
  | S754_infinity _ => Raise OverflowError
  | S754_nan => Raise ValueError
  end.

(** [a / b] for two Python ints: the correctly rounded quotient.  *)
Definition truediv (a b : Z) : result float :=
  if b =? 0 then Raise ZeroDivisionError
  else if a =? 0 then Ok (S754_zero (b <? 0))
  else
    let '(q, e, l) := SFdiv_core_binary prec emax (Z.abs a) 0 (Z.abs b) 0 in
    match binary_round_aux prec emax (xorb (a <? 0) (b <? 0)) q e l with
    | S754_infinity _ => Raise OverflowError
    | x => Ok x
    end.

(** [n * x] and [n + x] with [n] an int and [x] a float: the int is
    converted first. *)
Definition int_mul (n : Z) (x : float) : result float :=
  fn <- of_int n ;; Ok (mul fn x).

Definition int_add (n : Z) (x : float) : result float :=
  fn <- of_int n ;; Ok (add fn x).

(** The literals [0.45] and [0.2]: the doubles nearest to 45/100 and
    2/10. *)
Definition lit_0_45 : float := S754_finite false 8106479329266893 (-54).
Definition lit_0_2 : float := S754_finite false 7205759403792794 (-55).

Definition zero : float := S754_zero false.
Definition one : float := S754_finite false 4503599627370496 (-52).
Definition half : float := S754_finite false 4503599627370496 (-53).

(** The exact value of a finite float is [num / 2^k] with
    [(num, k) = dyadic x]. *)
Definition dyadic (x : float) : Z * Z :=
  match x with
  | S754_finite s m e =>
      if 0 <=? e then (cond_Zopp s (Zpos m * 2 ^ e), 0)
      else (cond_Zopp s (Zpos m), - e)
  | _ => (0, 0)
  end.

(** Mathematical floor and ceiling of a finite float. *)
Definition floor (x : float) : Z :=
  let '(n, k) := dyadic x in n / 2 ^ k.

Definition ceil (x : float) : Z :=
  let '(n, k) := dyadic x in - ((- n) / 2 ^ k).

Definition is_negative (x : float) : bool :=
  match x with
  | S754_finite true _ _ => true
  | _ => false
  end.

Definition is_integral (x : float) : bool :=
  let '(n, k) := dyadic x in n mod 2 ^ k =? 0.

(** The integer part toward zero, from the floor: one more than the
    floor exactly for the negative values that are not integers. *)
Definition truncate (x : float) : Z :=
  floor x + (if is_negative x && negb (is_integral x) then 1 else 0).

(** [below k x]: [x] is finite and [|x| < 2^k]. *)
Definition below (k : Z) (x : float) : bool :=
  match x with
  | S754_zero _ => true
  | S754_finite _ m e => Zpos (digits2_pos m) + e <=? k
  | _ => false
  end.

(** [0.0 <= x <= 1.0]. *)
Definition in_unit_interval (x : float) : bool :=
  SFleb zero x && SFleb x one.

End PyFloat.

(** ** Python strings and [int(s, 16)]

    A string is a sequence of characters with code points below 256. *)

Module PyStr.

Definition code (c : ascii) : Z := Z.of_nat (nat_of_ascii c).

(** [str.lstrip('#')]: every leading ['#'] is removed. *)
Fixpoint lstrip_hash (s : string) : string :=
  match s with
  | String c s' => if Ascii.eqb c "#" then lstrip_hash s' else s
  | EmptyString => s
  end.

(** The slice [s[i:i+n]]; it is clipped at the end of the string. *)
Definition slice (i n : nat) (s : string) : string := String.substring i n s.

(** Value of a character as a digit; 37 when it is none. *)
Definition digit_value (c : ascii) : Z :=
  let n := code c in
  if (48 <=? n) && (n <=? 57) then n - 48
  else if (97 <=? n) && (n <=? 122) then n - 87
  else if (65 <=? n) && (n <=? 90) then n - 55
  else 37.

Definition is_hex_digit (c : ascii) : bool := digit_value c <? 16.

(** Before parsing, [int] maps every character above the ASCII range
    to a blank when it is a space (NEL, NBSP) and to ['?']
    otherwise; ASCII blanks are tab, line feed, vertical tab, form
    feed, carriage return and space. *)
Definition to_ascii (c : ascii) : ascii :=
  let n := code c in
  if n <? 127 then c
  else if (n =? 133) || (n =? 160) then " "%char
  else "?"%char.

Definition is_space (c : ascii) : bool :=
  let n := code c in ((9 <=? n) && (n <=? 13)) || (n =? 32).

Fixpoint skip_spaces (s : string) : string :=
  match s with
  | String c s' => if is_space c then skip_spaces s' else s
  | EmptyString => s
  end.

Fixpoint all_spaces (s : string) : bool :=
  match s with
  | String c s' => is_space c && all_spaces s'
  | EmptyString => true
  end.

(** The digit scan: digits with single underscores between them.
    [acc] is the value so far, [digits] whether a digit was read and
    [prev_us] whether the previous character was an underscore.
    Returns the value and the rest, or [None] on a doubled or
    trailing underscore or when no digit was read. *)
Fixpoint scan_digits (base : Z) (s : string) (acc : Z) (digits prev_us : bool)
  : option (Z * string) :=
  match s with
  | String c s' =>
      if Ascii.eqb c "_" then
        if prev_us then None else scan_digits base s' acc digits true
      else if digit_value c <? base then
        scan_digits base s' (acc * base + digit_value c) true false
      else if prev_us || negb digits then None else Some (acc, s)
  | EmptyString => if prev_us || negb digits then None else Some (acc, s)
  end.

Definition strip_sign (s : string) : bool * string :=
  match s with
  | String "+" s' => (false, s')
  | String "-" s' => (true, s')
  | _ => (false, s)
  end.

Definition strip_prefix16 (s : string) : string :=
  match s with
  | String "0" (String "x" s') | String "0" (String "X" s') =>
      match s' with
      | String "_" s'' => s''
      | _ => s'
      end
  | _ => s
  end.

Fixpoint map_chars (f : ascii -> ascii) (s : string) : string :=
  match s with
  | String c s' => String (f c) (map_chars f s')
  | EmptyString => EmptyString
  end.

(** [int(s, 16)]. *)
Definition int16 (s : string) : result Z :=
  let s0 := skip_spaces (map_chars to_ascii s) in
  let '(neg, s1) := strip_sign s0 in
  let s2 := strip_prefix16 s1 in
  match s2 with
  | String "_" _ => Raise ValueError
  | _ =>
      match scan_digits 16 s2 0 false false with
      | Some (v, rest) =>
          if all_spaces rest then Ok (if neg then - v else v)
          else Raise ValueError
      | None => Raise ValueError
      end
  end.

End PyStr.

(** ** The generator: constants and colour functions *)

Record IconSpec : Type := { size : Z; name : string }.

Definition ICON_CONFIGS : list IconSpec :=
  [ {| size := 16; name := "favicon-16.png" |};
    {| size := 32; name := "favicon-32.png" |};
    {| size := 180; name := "apple-touch-icon.png" |};
    {| size := 192; name := "icon-192.png" |};
    {| size := 512; name := "icon-512.png" |} ].

Definition COLOR_START : string := "#70D1C7".
Definition COLOR_END : string := "#5bbfb5".
Definition COLOR_TEXT : string := "#FFFFFF".

Definition ColorRGB : Type := (Z * Z * Z)%type.

Definition hex_to_rgb (hex_color : string) : result ColorRGB :=
  let hex_color := PyStr.lstrip_hash hex_color in
  r <- PyStr.int16 (PyStr.slice 0 2 hex_color) ;;
  g <- PyStr.int16 (PyStr.slice 2 2 hex_color) ;;
  b <- PyStr.int16 (PyStr.slice 4 2 hex_color) ;;
  Ok (r, g, b).

(** One channel of [interpolate_color]: the float
    [c1 + (c2 - c1) * factor] and its conversion by [int]. *)
Definition interpolate_value (c1 c2 : Z) (factor : PyFloat.float)
  : result PyFloat.float :=
  p <- PyFloat.int_mul (c2 - c1) factor ;;
  PyFloat.int_add c1 p.

Definition interpolate_channel (c1 c2 : Z) (factor : PyFloat.float) : result Z :=
  v <- interpolate_value c1 c2 factor ;;
  PyFloat.to_int v.

Definition interpolate_color (color1 color2 : string) (factor : PyFloat.float)
  : result ColorRGB :=
  rgb1 <- hex_to_rgb color1 ;;
  rgb2 <- hex_to_rgb color2 ;;
  let '(r1, g1, b1) := rgb1 in
  let '(r2, g2, b2) := rgb2 in
  r <- interpolate_channel r1 r2 factor ;;
  g <- interpolate_channel g1 g2 factor ;;
  b <- interpolate_channel b1 b2 factor ;;
  Ok (r, g, b).

(** ** Pillow images

    An image is a pixel grid of known width and height.  Drawing
    primitives clip to the grid. *)

Module Pillow.

Definition RGBA : Type := (Z * Z * Z * Z)%type.

Record Image (P : Type) : Type :=
  { width : Z; height : Z; pixel : Z -> Z -> P }.

Arguments width {P} _.
Arguments height {P} _.
Arguments pixel {P} _ _ _.

Definition inside {P : Type} (img : Image P) (x y : Z) : bool :=
  (0 <=? x) && (x <? width img) && (0 <=? y) && (y <? height img).

(** [Image.getpixel((x, y))]; no value outside the grid. *)
Definition getpixel {P : Type} (img : Image P) (x y : Z) : option P :=
  if inside img x y then Some (pixel img x y) else None.

(** [Image.new(mode, (w, h), color)]. *)
Definition new {P : Type} (w h : Z) (color : P) : result (Image P) :=
  if (w <? 0) || (h <? 0) then Raise ValueError
  else Ok {| width := w; height := h; pixel := fun _ _ => color |}.

(** Every pixel of the grid that lies in [region] takes the value
    [ink]. *)
Definition paint {P : Type} (img : Image P) (region : Z -> Z -> bool) (ink : P)
  : Image P :=
  {| width := width img;
     height := height img;
     pixel := fun x y =>
                if inside img x y && region x y then ink else pixel img x y |}.

(** [ImageDraw.line([(x0, y), (x1, y)], fill=(r, g, b))] on an RGBA
    image: the one-pixel horizontal segment, end points included, at
    full opacity. *)
Definition draw_hline (img : Image RGBA) (x0 y x1 : Z) (fill : Z * Z * Z)
  : Image RGBA :=
  let '(r, g, b) := fill in
  paint img
    (fun x' y' => (y' =? y) && (Z.min x0 x1 <=? x') && (x' <=? Z.max x0 x1))
    (r, g, b, 255).

(** Modelled from the spec: Pillow's rasterizer is not part of the
    repository.  [ImageDraw.rounded_rectangle([(x0, y0), (x1, y1)],
    radius, fill)] fills the rounded rectangle whose bounding box has
    the two given pixels as opposite corners, both included; the
    radius is clamped to half the shorter side.  A pixel is filled
    when it is in the box and no farther than the radius from the
    nearest point of the box shrunk by the radius on every side. *)
Definition clamp_radius (x0 y0 x1 y1 radius : Z) : Z :=
  Z.max 0 (Z.min radius (Z.min ((x1 - x0) / 2) ((y1 - y0) / 2))).

Definition in_rounded_rectangle (x0 y0 x1 y1 radius x y : Z) : bool :=
  let r := clamp_radius x0 y0 x1 y1 radius in
  let cx := Z.max (x0 + r) (Z.min x (x1 - r)) in
  let cy := Z.max (y0 + r) (Z.min y (y1 - r)) in
  (x0 <=? x) && (x <=? x1) && (y0 <=? y) && (y <=? y1)
  && ((x - cx) * (x - cx) + (y - cy) * (y - cy) <=? r * r).

Definition rounded_rectangle (mask : Image Z) (x0 y0 x1 y1 radius fill : Z)
  : result (Image Z) :=
  if (x1 <? x0) || (y1 <? y0) then Raise ValueError
  else Ok (paint mask (in_rounded_rectangle x0 y0 x1 y1 radius) fill).

(** [Image.putalpha(mask)]: the alpha band is replaced by the mask;
    ValueError when the sizes differ. *)
Definition putalpha (img : Image RGBA) (mask : Image Z) : result (Image RGBA) :=
  if (width img =? width mask) && (height img =? height mask) then
    Ok {| width := width img;
          height := height img;
          pixel := fun x y =>
                     let '(r, g, b, _) := pixel img x y in
                     (r, g, b, pixel mask x y) |}
  else Raise ValueError.

(** A loaded font: the bounding box [(left, top, right, bottom)] of a
    text anchored at the origin, and its rendering: the new value of
    the pixel at an offset from the anchor, from the ink and the old
    value. *)
Record Font : Type :=
  { textbbox : string -> Z * Z * Z * Z;
    render : string -> Z * Z * Z -> Z -> Z -> RGBA -> RGBA }.

(** [ImageDraw.text((x, y), text, fill, font)]. *)
Definition draw_text_at (img : Image RGBA) (x y : Z) (text : string)
  (fill : Z * Z * Z) (font : Font) : Image RGBA :=
  {| width := width img;
     height := height img;
     pixel := fun px py =>
                if inside img px py
                then render font text fill (px - x) (py - y) (pixel img px py)
                else pixel img px py |}.

(** The fonts of the machine: [ImageFont.truetype(path, size)] gives
    a font or raises an exception, OSError for a file that cannot be
    read; [ImageFont.load_default()] always gives a font. *)
Record Fonts : Type :=
  { truetype : string -> Z -> result Font;
    load_default : Font }.

End Pillow.

Import Pillow.

(** ** The generator: drawing *)

Definition create_gradient_background (size : Z) : result (Image RGBA) :=
  img <- Pillow.new size size (0, 0, 0, 0) ;;
  for_each
    (fun img y =>
       factor <- PyFloat.truediv y size ;;
       color <- interpolate_color COLOR_START COLOR_END factor ;;
       Ok (draw_hline img 0 y size color))
    (range size) img.

Definition add_rounded_corners (img : Image RGBA) (radius : Z)
  : result (Image RGBA) :=
  let size := width img in
  mask <- Pillow.new size size 0 ;;
  mask <- rounded_rectangle mask 0 0 size size radius 255 ;;
  putalpha img mask.

(** The mask that [add_rounded_corners] builds for a canvas of the
    given width. *)
Definition corner_mask (size radius : Z) : result (Image Z) :=
  mask <- Pillow.new size size 0 ;;
  rounded_rectangle mask 0 0 size size radius 255.

Definition FONT_MACOS : string := "/System/Library/Fonts/Supplemental/Arial Bold.ttf".
Definition FONT_LINUX : string := "/usr/share/fonts/truetype/dejavu/DejaVuSans-Bold.ttf".
Definition FONT_WINDOWS : string := "C:\Windows\Fonts\arialbd.ttf".

(** The nested [try]/[except] of [draw_text]: a bare [except] catches
    every exception. *)
Definition select_font (fonts : Fonts) (font_size : Z) : Font :=
  match truetype fonts FONT_MACOS font_size with
  | Ok font => font
  | Raise _ =>
      match truetype fonts FONT_LINUX font_size with
      | Ok font => font
      | Raise _ =>
          match truetype fonts FONT_WINDOWS font_size with
          | Ok font => font
          | Raise _ => load_default fonts
          end
      end
  end.

(** The expression [int(size * 0.45)] of [draw_text]. *)
Definition text_font_size (size : Z) : result Z :=
  v <- PyFloat.int_mul size PyFloat.lit_0_45 ;; PyFloat.to_int v.

Definition draw_text (fonts : Fonts) (img : Image RGBA) (text : string) (size : Z)
  : result (Image RGBA) :=
  font_size <- text_font_size size ;;
  let font := select_font fonts font_size in
  let '(bbox0, bbox1, bbox2, bbox3) := textbbox font text in
  let text_width := bbox2 - bbox0 in
  let text_height := bbox3 - bbox1 in
  let x := (size - text_width) / 2 in
  let y := (size - text_height) / 2 - bbox1 in
  fill <- hex_to_rgb COLOR_TEXT ;;
  Ok (draw_text_at img x y text fill font).

(** ** The generator: files and orchestration

    A path is its list of components.  The world of a run is the set
    of directories, the image files written (a saved PNG is identified
    with the image it encodes) and the lines printed.  An exception
    that escapes [main] ends the run; the model then gives the
    exception only. *)

Definition Path : Type := list string.

Definition parent (p : Path) : Path := removelast p.
Definition joinpath (p : Path) (child : string) : Path := p ++ [child].

Inductive Line : Type :=
| IconsDirectory (dir : Path)
| Generating
| Generated (name : string) (size : Z)
| AllGenerated
| Location (dir : Path).

Record World : Type :=
  { dirs : gset Path;
    files : gmap Path (Image RGBA);
    stdout : list Line }.

Definition print (l : Line) (w : World) : World :=
  {| dirs := dirs w; files := files w; stdout := stdout w ++ [l] |}.

(** [Path.mkdir(exist_ok=True)]. *)
Definition mkdir (p : Path) (w : World) : World :=
  {| dirs := {[ p ]} ∪ dirs w; files := files w; stdout := stdout w |}.

(** [Image.save(path, "PNG")]. *)
Definition save (img : Image RGBA) (p : Path) (w : World) : World :=
  {| dirs := dirs w; files := <[ p := img ]> (files w); stdout := stdout w |}.

(** The expression [int(size * 0.2)] of [generate_icon]. *)
Definition corner_radius (size : Z) : result Z :=
  v <- PyFloat.int_mul size PyFloat.lit_0_2 ;; PyFloat.to_int v.

Definition generate_icon (fonts : Fonts) (config : IconSpec) (output_dir : Path)
  (w : World) : result World :=
  let size := size config in
  let name := name config in
  img <- create_gradient_background size ;;
  radius <- corner_radius size ;;
  img <- add_rounded_corners img radius ;;
  img <- draw_text fonts img "TB" size ;;
  let output_path := joinpath output_dir name in
  let w := save img output_path w in
  Ok (print (Generated name size) w).

Definition main (fonts : Fonts) (script_dir : Path) (w : World) : result World :=
  let icons_dir := joinpath (parent script_dir) "icons" in
  let w := mkdir icons_dir w in
  let w := print (IconsDirectory icons_dir) w in
  let w := print Generating w in
  w <- for_each (fun w config => generate_icon fonts config icons_dir w)
         ICON_CONFIGS w ;;
  let w := print AllGenerated w in
  Ok (print (Location icons_dir) w).

(** ** Vocabulary of the specification *)

(** A colour of the data model: three 8-bit channels. *)
Definition rgb8 (c : ColorRGB) : Prop :=
  let '(r, g, b) := c in
  (0 <= r <= 255) /\ (0 <= g <= 255) /\ (0 <= b <= 255).

(** Exactly six hexadecimal digits, and the channels they denote. *)
Definition is_hex6 (s : string) : bool :=
  match s with
  | String c0 (String c1 (String c2 (String c3 (String c4 (String c5 EmptyString))))) =>
      forallb PyStr.is_hex_digit [c0; c1; c2; c3; c4; c5]
  | _ => false
  end.

Definition hex_pair (c0 c1 : ascii) : Z :=
  16 * PyStr.digit_value c0 + PyStr.digit_value c1.

Definition hex6_value (s : string) : ColorRGB :=
  match s with
  | String c0 (String c1 (String c2 (String c3 (String c4 (String c5 _))))) =>
      (hex_pair c0 c1, hex_pair c2 c3, hex_pair c4 c5)
  | _ => (0, 0, 0)
  end.

(** A character that no base-16 literal of at most two characters
    contains: its code is 33 or more, it is not one of the two blanks
    above the ASCII range, NEL (133) and NBSP (160), and it is neither
    a hexadecimal digit nor a sign. *)
Definition is_bad_char (c : ascii) : bool :=
  (33 <=? PyStr.code c)
  && negb ((PyStr.code c =? 133) || (PyStr.code c =? 160))
  && negb (PyStr.is_hex_digit c || Ascii.eqb c "+" || Ascii.eqb c "-").

Fixpoint string_exists (p : ascii -> bool) (s : string) : bool :=
  match s with
  | String c s' => p c || string_exists p s'
  | EmptyString => false
  end.

Definition all_ascii : list ascii := map ascii_of_nat (seq 0 256).

Definition returns (r : result Z) (v : Z) : bool :=
  match r with Ok v' => v' =? v | Raise _ => false end.

Definition returns_color (r : result ColorRGB) (c : ColorRGB) : bool :=
  match r with
  | Ok (r0, g0, b0) =>
      let '(r1, g1, b1) := c in (r0 =? r1) && (g0 =? g1) && (b0 =? b1)
  | Raise _ => false
  end.

Definition raises_ValueError {A : Type} (r : result A) : bool :=
  match r with Raise ValueError => true | _ => false end.

(** [z] is an integer nearest to the fraction [num / den]. *)
Definition nearest_int (num den z : Z) : Prop :=
  2 * Z.abs (z * den - num) <= den.

(** The specification's interpolation: the floor of the exact value
    [a + (b - a) * factor]. *)
Definition floor_interpolation (a b : Z) (factor : PyFloat.float) : Z :=
  let '(n, k) := PyFloat.dyadic factor in
  (a * 2 ^ k + (b - a) * n) / 2 ^ k.

(** The colour that [create_gradient_background] computes for row [y]. *)
Definition row_color (size y : Z) : result ColorRGB :=
  factor <- PyFloat.truediv y size ;;
  interpolate_color COLOR_START COLOR_END factor.

(** The output paths of a run, and a machine without fonts. *)
Definition icons_dir (script_dir : Path) : Path :=
  joinpath (parent script_dir) "icons".

Definition plain_font : Font :=
  {| textbbox := fun _ => (0, 0, 0, 0);
     render := fun _ _ _ _ old => old |}.

Definition no_fonts : Fonts :=
  {| truetype := fun _ _ => Raise OSError; load_default := plain_font |}.

(** The font that the fallback of the specification selects: the
    first of the three candidates, in the order macOS, Linux, Windows,
    that loads, every candidate before it having failed with some
    exception; the default font when the three fail. *)
Definition fails (fonts : Fonts) (path : string) (font_size : Z) : Prop :=
  exists e : exn, truetype fonts path font_size = Raise e.

Definition fallback_font (fonts : Fonts) (font_size : Z) (font : Font) : Prop :=
  truetype fonts FONT_MACOS font_size = Ok font
  \/ (fails fonts FONT_MACOS font_size
      /\ truetype fonts FONT_LINUX font_size = Ok font)
  \/ (fails fonts FONT_MACOS font_size
      /\ fails fonts FONT_LINUX font_size
      /\ truetype fonts FONT_WINDOWS font_size = Ok font)
  \/ (fails fonts FONT_MACOS font_size
      /\ fails fonts FONT_LINUX font_size
      /\ fails fonts FONT_WINDOWS font_size
      /\ font = load_default fonts).

Definition empty_world : World :=
  {| dirs := ∅; files := ∅; stdout := [] |}.

(** What [generate_icon] does to the world once the image is drawn. *)
Definition written (output_dir : Path) (w : World) (icon : IconSpec * Image RGBA)
  : World :=
  let '(config, img) := icon in
  print (Generated (name config) (size config))
    (save img (joinpath output_dir (name config)) w).

(** The world after a run that wrote the five given images into the
    directory [d]. *)
Definition final_world (d : Path) (w : World) (i16 i32 i180 i192 i512 : Image RGBA)
  : World :=
  {| dirs := {[ d ]} ∪ dirs w;
     files := <[ joinpath d "icon-512.png" := i512 ]>
                (<[ joinpath d "icon-192.png" := i192 ]>
                   (<[ joinpath d "apple-touch-icon.png" := i180 ]>
                      (<[ joinpath d "favicon-32.png" := i32 ]>
                         (<[ joinpath d "favicon-16.png" := i16 ]> (files w)))));
     stdout := stdout w
                 ++ [ IconsDirectory d; Generating;
                      Generated "favicon-16.png" 16;
                      Generated "favicon-32.png" 32;
                      Generated "apple-touch-icon.png" 180;
                      Generated "icon-192.png" 192;
                      Generated "icon-512.png" 512;
                      AllGenerated; Location d ] |}.

(** ** Vocabulary of the further properties *)

(** [signed_between s lo hi x]: [x] is a zero, or a finite float of
    sign [s] with an exponent that is not positive, and its absolute
    value lies between the integers [lo] and [hi]. *)
Definition signed_between (s : bool) (lo hi : Z) (x : PyFloat.float) : Prop :=
  match x with
  | S754_zero _ => lo <= 0 <= hi
  | S754_finite s' m e =>
      s' = s /\ e <= 0 /\ lo * 2 ^ (- e) <= Zpos m <= hi * 2 ^ (- e)
  | _ => False
  end.

(** [strictly_below_one x]: [x] is a zero, or a positive finite float
    whose value is less than 1. *)
Definition strictly_below_one (x : PyFloat.float) : Prop :=
  match x with
  | S754_zero _ => True
  | S754_finite false m e => e <= 0 /\ Zpos m < 2 ^ (- e)
  | _ => False
  end.

(** A double: a float in canonical form. *)
Definition is_double (x : PyFloat.float) : bool :=
  valid_binary PyFloat.prec PyFloat.emax x.

(** Upper-casing of the ASCII letters; every other character is kept. *)
Definition ascii_upper (c : ascii) : ascii :=
  let n := PyStr.code c in
  if (97 <=? n) && (n <=? 122) then ascii_of_nat (Z.to_nat (n - 32)) else c.

Definition upper (s : string) : string := PyStr.map_chars ascii_upper s.

(** The strings of at most two characters. *)
Definition short_strings : list string :=
  EmptyString
    :: map (fun c => String c EmptyString) all_ascii
    ++ flat_map (fun c0 => map (fun c1 => String c0 (String c1 EmptyString)) all_ascii)
         all_ascii.

(** * Properties *)

(** ** Magnitude bounds for binary64 arithmetic

    Rounding never overflows when the magnitude of the exact result
    is well inside the exponent range.  The bounds are tracked as
    numbers of binary digits. *)

Module PyFloatFacts.

Import PyFloat.

Section Digits.

Lemma digits2_pos_bounds (p : positive) :
  2 ^ (Zpos (digits2_pos p) - 1) <= Zpos p < 2 ^ Zpos (digits2_pos p).
Proof.
  induction p as [p IH | p IH | ]; cbn [digits2_pos].
  - rewrite Pos2Z.inj_succ.
    replace (Z.succ (Zpos (digits2_pos p)) - 1) with (Z.succ (Zpos (digits2_pos p) - 1)) by lia.
    rewrite !Z.pow_succ_r by lia. lia.
  - rewrite Pos2Z.inj_succ.
    replace (Z.succ (Zpos (digits2_pos p)) - 1) with (Z.succ (Zpos (digits2_pos p) - 1)) by lia.
    rewrite !Z.pow_succ_r by lia. lia.
  - cbn. lia.
Qed.

Lemma Zdigits2_nonneg (m : Z) : 0 <= Zdigits2 m.
Proof. destruct m; cbn; lia. Qed.

(** For a natural number, having at most [j] binary digits is being
    below [2^j]. *)
Lemma Zdigits2_le_iff (m j : Z) :
  0 <= m -> 0 <= j -> Zdigits2 m <= j <-> m < 2 ^ j.
Proof.
  intros Hm Hj. destruct m as [ | p | p ]; [ | | lia ].
  - cbn. split; intros _; [ apply Z.pow_pos_nonneg | ]; lia.
  - cbn [Zdigits2]. pose proof (digits2_pos_bounds p) as [Hlo Hhi]. split; intros H.
    + eapply Z.lt_le_trans; [ exact Hhi | ]. apply Z.pow_le_mono_r; lia.
    + destruct (Z_lt_le_dec j (Zpos (digits2_pos p))) as [Hlt | ]; [ | lia ].
      exfalso. assert (2 ^ j <= 2 ^ (Zpos (digits2_pos p) - 1)) by (apply Z.pow_le_mono_r; lia).
      lia.
Qed.

Lemma Zdigits2_lt_pow (m : Z) : 0 <= m -> m < 2 ^ Zdigits2 m.
Proof.
  intros Hm. apply Zdigits2_le_iff; [ lia | apply Zdigits2_nonneg | lia ].
Qed.

End Digits.

Section Shift.

Lemma shr_1_m (mrs : shr_record) :
  0 <= shr_m mrs -> shr_m (shr_1 mrs) = shr_m mrs / 2.
Proof.
  destruct mrs as [m r s]. cbn [shr_m]. intros Hm.
  destruct m as [ | [p | p | ] | p ]; cbn [shr_1 shr_m]; try lia; try reflexivity.
  - apply Z.div_unique with (r := 1); lia.
  - apply Z.div_unique with (r := 0); lia.
Qed.

Lemma iter_shr_1_m (p : positive) (mrs : shr_record) :
  0 <= shr_m mrs ->
  shr_m (iter_pos shr_1 p mrs) = shr_m mrs / 2 ^ Zpos p.
Proof.
  revert mrs. induction p as [p IH | p IH | ]; intros mrs Hm; cbn [iter_pos].
  - assert (H1 : 0 <= shr_m (shr_1 mrs)) by (rewrite shr_1_m by lia; apply Z.div_pos; lia).
    assert (H2 : 0 <= shr_m (iter_pos shr_1 p (shr_1 mrs))).
    { rewrite IH by lia. apply Z.div_pos; [ lia | apply Z.pow_pos_nonneg; lia ]. }
    assert (Hpow : 2 ^ Zpos p~1 = 2 * 2 ^ Zpos p * 2 ^ Zpos p).
    { replace (Zpos p~1) with (1 + Zpos p + Zpos p) by lia.
      rewrite !Z.pow_add_r by lia. lia. }
    assert (0 < 2 ^ Zpos p) by (apply Z.pow_pos_nonneg; lia).
    rewrite IH by lia. rewrite IH by lia. rewrite shr_1_m by lia.
    rewrite Hpow, !Z.div_div by lia. f_equal. lia.
  - assert (H2 : 0 <= shr_m (iter_pos shr_1 p mrs)).
    { rewrite IH by lia. apply Z.div_pos; [ lia | apply Z.pow_pos_nonneg; lia ]. }
    assert (Hpow : 2 ^ Zpos p~0 = 2 ^ Zpos p * 2 ^ Zpos p).
    { replace (Zpos p~0) with (Zpos p + Zpos p) by lia.
      rewrite Z.pow_add_r by lia. reflexivity. }
    assert (0 < 2 ^ Zpos p) by (apply Z.pow_pos_nonneg; lia).
    rewrite IH by lia. rewrite IH by lia.
    rewrite Hpow, !Z.div_div by lia. reflexivity.
  - rewrite shr_1_m by lia. reflexivity.
Qed.

Lemma shr_record_of_loc_m (m : Z) (l : location) :
  shr_m (shr_record_of_loc m l) = m.
Proof. destruct l as [ | [ | | ] ]; reflexivity. Qed.

(** [shr] divides the mantissa by [2^n] and adds [n] to the
    exponent when [n] is positive, and does nothing otherwise. *)
Lemma shr_spec (mrs : shr_record) (e n : Z) :
  0 <= shr_m mrs ->
  let '(mrs', e') := shr mrs e n in
  (0 < n /\ shr_m mrs' = shr_m mrs / 2 ^ n /\ e' = e + n)
  \/ (n <= 0 /\ mrs' = mrs /\ e' = e).
Proof.
  intros Hm. destruct n as [ | p | p ]; cbn [shr].
  - right. split; [ lia | split; reflexivity ].
  - left. split; [ lia | split; [ apply iter_shr_1_m; lia | reflexivity ] ].
  - right. split; [ lia | split; reflexivity ].
Qed.

Lemma round_nearest_even_bounds (m : Z) (l : location) :
  m <= round_nearest_even m l <= m + 1.
Proof.
  destruct l as [ | [ | | ] ]; cbn [round_nearest_even]; try lia.
  destruct (Z.even m); lia.
Qed.

End Shift.

Section Rounding.

Lemma Zdigits2_div_pow2 (m n : Z) :
  0 <= m -> 0 < n -> Zdigits2 (m / 2 ^ n) <= Z.max (Zdigits2 m - n) 0.
Proof.
  intros Hm Hn.
  assert (Hpos : 0 < 2 ^ n) by (apply Z.pow_pos_nonneg; lia).
  pose proof (Zdigits2_nonneg m) as Hd.
  pose proof (Zdigits2_lt_pow m Hm) as Hlt.
  assert (Hq : 0 <= m / 2 ^ n) by (apply Z.div_pos; lia).
  apply Zdigits2_le_iff; [ lia | lia | ].
  destruct (Z_le_gt_dec n (Zdigits2 m)) as [Hle | Hgt].
  - rewrite Z.max_l by lia.
    apply Z.div_lt_upper_bound; [ lia | ].
    rewrite <- Z.pow_add_r by lia.
    replace (n + (Zdigits2 m - n)) with (Zdigits2 m) by lia. exact Hlt.
  - rewrite Z.max_r by lia. rewrite Z.div_small; [ cbn; lia | ].
    split; [ lia | ].
    eapply Z.lt_le_trans; [ exact Hlt | apply Z.pow_le_mono_r; lia ].
Qed.

Lemma Zdigits2_succ (m : Z) : 0 <= m -> Zdigits2 (m + 1) <= Zdigits2 m + 1.
Proof.
  intros Hm. pose proof (Zdigits2_nonneg m) as Hd.
  pose proof (Zdigits2_lt_pow m Hm) as Hlt.
  apply Zdigits2_le_iff; [ lia | lia | ].
  rewrite Z.pow_add_r by lia. change (2 ^ 1) with 2. lia.
Qed.

Lemma Zdigits2_mono (a b : Z) : 0 <= a <= b -> Zdigits2 a <= Zdigits2 b.
Proof.
  intros [Ha Hab]. apply Zdigits2_le_iff; [ lia | apply Zdigits2_nonneg | ].
  pose proof (Zdigits2_lt_pow b). lia.
Qed.

(** One alignment step of the rounding keeps the magnitude bound
    and leaves an exponent that is the old one or the canonical
    one. *)
Lemma shr_fexp_below (m e k : Z) (l : location) :
  0 <= m -> Zdigits2 m + e <= k -> emin prec emax <= k ->
  let '(mrs', e') := shr_fexp prec emax m e l in
  0 <= shr_m mrs'
  /\ shr_m mrs' <= m
  /\ Zdigits2 (shr_m mrs') + e' <= k
  /\ e' <= Z.max e (Z.max (k - prec) (emin prec emax)).
Proof.
  intros Hm Hk Hmin. unfold shr_fexp.
  pose proof (shr_spec (shr_record_of_loc m l) e
                (fexp prec emax (Zdigits2 m + e) - e)) as Hs.
  rewrite shr_record_of_loc_m in Hs. specialize (Hs Hm).
  destruct (shr (shr_record_of_loc m l) e (fexp prec emax (Zdigits2 m + e) - e))
    as [mrs' e'].
  pose proof (Zdigits2_nonneg m) as Hd.
  unfold fexp in Hs.
  destruct Hs as [(Hn & Hm' & He') | (Hn & Hm' & He')].
  - assert (Hpos : 0 < 2 ^ (Z.max (Zdigits2 m + e - prec) (emin prec emax) - e))
      by (apply Z.pow_pos_nonneg; lia).
    pose proof (Zdigits2_div_pow2 m _ Hm Hn) as Hdiv. rewrite <- Hm' in Hdiv.
    assert (0 <= shr_m mrs') by (rewrite Hm'; apply Z.div_pos; lia).
    assert (shr_m mrs' <= m).
    { rewrite Hm'. apply Z.div_le_upper_bound; [ lia | nia ]. }
    unfold prec in *. lia.
  - subst mrs' e'. rewrite shr_record_of_loc_m. lia.
Qed.

(** Rounding a natural mantissa whose magnitude is below [2^k], with
    [k] in the exponent range, gives zero or a finite float of
    magnitude below [2^(k+1)]. *)
Lemma binary_round_aux_below (s : bool) (m e k : Z) (l : location) :
  0 <= m -> Zdigits2 m + e <= k -> e <= emax - prec ->
  emin prec emax <= k -> k < emax ->
  below (k + 1) (binary_round_aux prec emax s m e l) = true.
Proof.
  intros Hm Hk He Hmin Hmax. unfold binary_round_aux.
  pose proof (shr_fexp_below m e k l Hm Hk Hmin) as H1.
  destruct (shr_fexp prec emax m e l) as [mrs1 e1].
  destruct H1 as (Hm1 & _ & Hk1 & He1).
  set (m2 := round_nearest_even (shr_m mrs1) (loc_of_shr_record mrs1)).
  pose proof (round_nearest_even_bounds (shr_m mrs1) (loc_of_shr_record mrs1)) as Hr.
  fold m2 in Hr.
  assert (Hk2 : Zdigits2 m2 + e1 <= k + 1).
  { pose proof (Zdigits2_mono m2 (shr_m mrs1 + 1)).
    pose proof (Zdigits2_succ (shr_m mrs1)). lia. }
  pose proof (shr_fexp_below m2 e1 (k + 1) loc_Exact) as H2.
  destruct (shr_fexp prec emax m2 e1 loc_Exact) as [mrs3 e3].
  destruct H2 as (Hm3 & _ & Hk3 & He3); [ lia | lia | lia | ].
  destruct (shr_m mrs3) as [ | p | p ] eqn:E3; [ reflexivity | | lia ].
  unfold emin, prec, emax in *.
  destruct (Z.leb_spec e3 (1024 - 53)) as [ | Hgt ]; [ | lia ].
  cbn [below Zdigits2] in *. apply Z.leb_le. lia.
Qed.

End Rounding.

Section Operations.

Lemma below_mono (k k' : Z) (x : float) :
  k <= k' -> below k x = true -> below k' x = true.
Proof.
  intros Hk. destruct x as [ | | | s m e ]; cbn [below]; auto.
  rewrite !Z.leb_le. lia.
Qed.

Lemma below_is_finite (k : Z) (x : float) : below k x = true -> is_finite x = true.
Proof. destruct x; cbn; auto. Qed.

Lemma Zdigits2_mul_pow2 (m s : Z) :
  0 <= m -> 0 <= s -> Zdigits2 (m * 2 ^ s) <= Zdigits2 m + s.
Proof.
  intros Hm Hs. pose proof (Zdigits2_nonneg m). pose proof (Zdigits2_lt_pow m Hm).
  assert (0 < 2 ^ s) by (apply Z.pow_pos_nonneg; lia).
  apply Zdigits2_le_iff; [ nia | lia | ].
  rewrite Z.pow_add_r by lia. nia.
Qed.

Lemma Zdigits2_mul (a b : Z) :
  0 <= a -> 0 <= b -> Zdigits2 (a * b) <= Zdigits2 a + Zdigits2 b.
Proof.
  intros Ha Hb. pose proof (Zdigits2_nonneg a). pose proof (Zdigits2_nonneg b).
  pose proof (Zdigits2_lt_pow a Ha). pose proof (Zdigits2_lt_pow b Hb).
  apply Zdigits2_le_iff; [ nia | lia | ].
  rewrite Z.pow_add_r by lia. nia.
Qed.

Lemma mul_below (kx ky : Z) (x y : float) :
  below kx x = true -> below ky y = true ->
  emin prec emax <= kx + ky -> kx + ky <= emax - prec ->
  below (kx + ky + 1) (mul x y) = true.
Proof.
  intros Hx Hy Hmin Hmax.
  destruct x as [ sx | | | sx mx ex ]; destruct y as [ sy | | | sy my ey ];
    try discriminate; try reflexivity.
  cbn [below] in Hx, Hy. apply Z.leb_le in Hx, Hy.
  unfold mul. cbn [SFmul].
  pose proof (Zdigits2_mul (Zpos mx) (Zpos my) ltac:(lia) ltac:(lia)) as Hd.
  change (Zpos mx * Zpos my) with (Zpos (mx * my)) in Hd.
  cbn [Zdigits2] in Hd.
  unfold emin, prec, emax in *.
  apply binary_round_aux_below; cbn [Zdigits2]; unfold emin, prec, emax; lia.
Qed.

Lemma iter_xO_pow2 (m d : positive) :
  Zpos (Pos.iter xO m d) = Zpos m * 2 ^ Zpos d.
Proof.
  induction d as [ | d IH ] using Pos.peano_ind.
  - cbn. lia.
  - rewrite Pos.iter_succ, Pos2Z.inj_succ, Z.pow_succ_r by lia.
    rewrite Pos2Z.inj_xO, IH. lia.
Qed.

Lemma shl_align_spec (m : positive) (e e' : Z) :
  let '(m1, e1) := shl_align m e e' in
  e1 = Z.min e e' /\ Zpos m1 = Zpos m * 2 ^ (e - e1).
Proof.
  unfold shl_align. destruct (e' - e) as [ | d | d ] eqn:E.
  - split; [ lia | ]. replace (e - e) with 0 by lia. cbn. lia.
  - split; [ lia | ]. replace (e - e) with 0 by lia. cbn. lia.
  - split; [ lia | ]. rewrite iter_xO_pow2. f_equal. f_equal. lia.
Qed.

(** Rounding a positive integer mantissa with its exponent. *)
Lemma binary_round_below (s : bool) (m : positive) (e k : Z) :
  Zpos (digits2_pos m) + e <= k -> e <= emax - prec ->
  emin prec emax <= k -> k < emax ->
  below (k + 1) (binary_round prec emax s m e) = true.
Proof.
  intros Hk He Hmin Hmax. unfold binary_round.
  pose proof (shl_align_spec m e (fexp prec emax (Zpos (digits2_pos m) + e))) as Ha.
  destruct (shl_align m e (fexp prec emax (Zpos (digits2_pos m) + e))) as [m1 e1].
  destruct Ha as [He1 Hm1].
  apply binary_round_aux_below; try lia.
  rewrite Hm1.
  pose proof (Zdigits2_mul_pow2 (Zpos m) (e - e1) ltac:(lia) ltac:(lia)) as Hd.
  cbn [Zdigits2] in Hd. lia.
Qed.

Lemma binary_normalize_below (n e k : Z) :
  Zdigits2 n + e <= k -> e <= emax - prec ->
  emin prec emax <= k -> k < emax ->
  below (k + 1) (binary_normalize prec emax n e false) = true.
Proof.
  intros Hk He Hmin Hmax.
  destruct n as [ | p | p ]; cbn [binary_normalize Zdigits2] in *;
    [ reflexivity | | ]; apply binary_round_below; lia.
Qed.

Lemma of_int_below (n j : Z) :
  Z.abs n < 2 ^ j -> 0 <= j < emax ->
  exists x, of_int n = Ok x /\ below (j + 1) x = true.
Proof.
  intros Hn Hj.
  assert (Hd : Zdigits2 n + 0 <= j).
  { rewrite Z.add_0_r.
    replace (Zdigits2 n) with (Zdigits2 (Z.abs n)) by (destruct n; reflexivity).
    apply Zdigits2_le_iff; lia. }
  pose proof (binary_normalize_below n 0 j Hd) as Hb.
  unfold of_int.
  destruct (binary_normalize prec emax n 0 false) as [ s | s | | s m e ] eqn:E.
  - eexists; split; [ reflexivity | ]. reflexivity.
  - unfold emin, prec, emax in *. discriminate Hb; lia.
  - unfold emin, prec, emax in *. discriminate Hb; lia.
  - eexists; split; [ reflexivity | ]. apply Hb; unfold emin, prec, emax in *; lia.
Qed.

End Operations.

Section Sums.

Lemma Zdigits2_abs (n : Z) : Zdigits2 n = Zdigits2 (Z.abs n).
Proof. destruct n; reflexivity. Qed.

Lemma cond_Zopp_abs (s : bool) (m : Z) : Z.abs (cond_Zopp s m) = Z.abs m.
Proof. destruct s; cbn [cond_Zopp]; lia. Qed.

Lemma add_below (kx ky : Z) (x y : float) :
  below kx x = true -> below ky y = true ->
  emin prec emax <= Z.max kx ky + 1 -> Z.max kx ky + 1 <= emax - prec ->
  below (Z.max kx ky + 2) (add x y) = true.
Proof.
  intros Hx Hy Hmin Hmax.
  destruct x as [ sx | | | sx mx ex ]; destruct y as [ sy | | | sy my ey ];
    try discriminate.
  - destruct sx, sy; reflexivity.
  - cbn [add SFadd]. eapply below_mono; [ | exact Hy ]. lia.
  - cbn [add SFadd]. eapply below_mono; [ | exact Hx ]. lia.
  - cbn [below] in Hx, Hy. apply Z.leb_le in Hx, Hy.
    unfold add. cbn [SFadd].
    set (ez := Z.min ex ey).
    pose proof (shl_align_spec mx ex ez) as Hax.
    pose proof (shl_align_spec my ey ez) as Hay.
    destruct (shl_align mx ex ez) as [m1 e1], (shl_align my ey ez) as [m2 e2].
    cbn [fst]. destruct Hax as [He1 Hm1], Hay as [He2 Hm2].
    assert (E1 : e1 = ez) by (unfold ez in *; lia).
    assert (E2 : e2 = ez) by (unfold ez in *; lia).
    rewrite E1 in Hm1. rewrite E2 in Hm2.
    set (k := Z.max kx ky) in *.
    replace (k + 2) with (k + 1 + 1) by lia.
    apply binary_normalize_below; unfold emin, prec, emax in *;
      try (unfold ez, k; lia).
    rewrite Zdigits2_abs.
    enough (Hd : Zdigits2 (Z.abs (cond_Zopp sx (Zpos m1) + cond_Zopp sy (Zpos m2)))
                 <= k + 1 - ez) by lia.
    apply Zdigits2_le_iff; [ lia | unfold ez, k; lia | ].
      pose proof (Zdigits2_mul_pow2 (Zpos mx) (ex - ez) ltac:(lia) ltac:(unfold ez; lia)) as D1.
      pose proof (Zdigits2_mul_pow2 (Zpos my) (ey - ez) ltac:(lia) ltac:(unfold ez; lia)) as D2.
      rewrite <- Hm1 in D1. rewrite <- Hm2 in D2. cbn [Zdigits2] in D1, D2.
      assert (B1 : Zpos m1 < 2 ^ (k - ez)).
      { apply (Zdigits2_le_iff (Zpos m1)); [ lia | unfold ez, k; lia | ].
        cbn [Zdigits2]. unfold k. lia. }
      assert (B2 : Zpos m2 < 2 ^ (k - ez)).
      { apply (Zdigits2_le_iff (Zpos m2)); [ lia | unfold ez, k; lia | ].
        cbn [Zdigits2]. unfold k. lia. }
      replace (k + 1 - ez) with (Z.succ (k - ez)) by lia.
      rewrite Z.pow_succ_r by (unfold ez, k; lia).
      pose proof (cond_Zopp_abs sx (Zpos m1)). pose proof (cond_Zopp_abs sy (Zpos m2)).
      lia.
Qed.

Lemma truediv_below (a b : Z) :
  0 < a < b -> exists f, truediv a b = Ok f /\ below 1 f = true.
Proof.
  intros [Ha Hab]. unfold truediv.
  destruct (Z.eqb_spec b 0) as [ | _ ]; [ lia | ].
  destruct (Z.eqb_spec a 0) as [ | _ ]; [ lia | ].
  rewrite !Z.abs_eq by lia.
  unfold SFdiv_core_binary.
  rewrite !Z.add_0_r, Z.sub_0_r.
  set (e' := Z.min (fexp prec emax (Zdigits2 a - Zdigits2 b)) 0).
  replace (0 - e') with (- e') by lia.
  assert (He' : e' <= 0) by (unfold e'; lia).
  set (m' := match - e' with
             | 0 => a
             | Zpos _ => Z.shiftl a (- e')
             | Zneg _ => 0
             end).
  assert (Hm' : m' = a * 2 ^ (- e')).
  { unfold m'. destruct (- e') as [ | p | p ] eqn:E; [ cbn; lia | | lia ].
    rewrite Z.shiftl_mul_pow2 by lia. reflexivity. }
  assert (Hpos : 0 < 2 ^ (- e')) by (apply Z.pow_pos_nonneg; lia).
  pose proof (Z_div_mod m' b ltac:(lia)) as Hdm.
  destruct (Z.div_eucl m' b) as [q r]. destruct Hdm as [Hq Hr].
  assert (Hq0 : 0 <= q) by nia.
  assert (Hq1 : q < 2 ^ (- e')) by nia.
  assert (Hd : Zdigits2 q + e' <= 0).
  { enough (Zdigits2 q <= - e') by lia. apply Zdigits2_le_iff; lia. }
  pose proof (binary_round_aux_below
                (xorb (a <? 0) (b <? 0)) q e' 0 (new_location b r) Hq0 Hd) as Hb.
  unfold emin, prec, emax in *.
  specialize (Hb ltac:(lia) ltac:(lia) ltac:(lia)). cbn [Z.add] in Hb.
  destruct (binary_round_aux 53 1024 (xorb (a <? 0) (b <? 0)) q e' (new_location b r))
    as [ s | s | | s m e ]; try discriminate; eexists; split; try reflexivity; exact Hb.
Qed.

End Sums.

End PyFloatFacts.

(** ** Conversion of floats to integers, and the colour channels *)

Import PyFloat PyFloatFacts.

Section Truncation.

Lemma dyadic_scale_pos (x : float) : 0 < 2 ^ snd (dyadic x).
Proof.
  destruct x as [ | | | s m e ]; cbn [dyadic]; try (cbn; lia).
  destruct (Z.leb_spec 0 e); cbn [snd]; [ cbn; lia | apply Z.pow_pos_nonneg; lia ].
Qed.

(** [int(x)] is the floor of a value that is not negative and the
    ceiling of a negative one. *)
Lemma to_int_floor_ceil (x : float) :
  is_finite x = true ->
  to_int x = Ok (if is_negative x then ceil x else floor x).
Proof.
  destruct x as [ s | | | s m e ]; try discriminate; intros _.
  - reflexivity.
  - cbn [to_int is_negative]. unfold floor, ceil, dyadic.
    destruct (Z.leb_spec 0 e) as [He | He].
    + rewrite Z.shiftl_mul_pow2 by lia. change (2 ^ 0) with 1.
      rewrite !Z.div_1_r. destruct s; cbn [cond_Zopp]; f_equal; lia.
    + rewrite <- Z.shiftr_opp_r, Z.shiftr_div_pow2 by lia.
      destruct s; cbn [cond_Zopp]; [ | reflexivity ].
      rewrite Z.opp_involutive. reflexivity.
Qed.

Lemma ceil_floor (x : float) :
  ceil x = floor x + (if is_integral x then 0 else 1).
Proof.
  unfold ceil, floor, is_integral. pose proof (dyadic_scale_pos x) as Hpos.
  destruct (dyadic x) as [n k]. cbn [snd] in Hpos.
  destruct (Z.eqb_spec (n mod 2 ^ k) 0) as [Hz | Hnz].
  - rewrite Z.div_opp_l_z by lia. lia.
  - rewrite Z.div_opp_l_nz by lia. lia.
Qed.

Lemma to_int_truncate (x : float) :
  is_finite x = true -> to_int x = Ok (truncate x).
Proof.
  intros Hx. rewrite to_int_floor_ceil by exact Hx. unfold truncate.
  rewrite ceil_floor. destruct (is_negative x), (is_integral x); cbn [andb negb]; f_equal; lia.
Qed.

End Truncation.

Section Channels.

Lemma int_mul_below (n j k : Z) (x : float) :
  Z.abs n < 2 ^ j -> 0 <= j < emax -> below k x = true ->
  emin prec emax <= j + 1 + k -> j + 1 + k <= emax - prec ->
  exists p, int_mul n x = Ok p /\ below (j + k + 2) p = true.
Proof.
  intros Hn Hj Hx Hmin Hmax. unfold emin, prec, emax in *.
  destruct (of_int_below n j Hn) as (fn & Efn & Hfn); [ unfold emax; lia | ].
  unfold int_mul. rewrite Efn. cbn [bind]. eexists; split; [ reflexivity | ].
  replace (j + k + 2) with (j + 1 + k + 1) by lia.
  apply mul_below; unfold emin, prec, emax; auto; lia.
Qed.

Lemma int_add_below (n j k : Z) (x : float) :
  Z.abs n < 2 ^ j -> 0 <= j < emax -> below k x = true ->
  Z.max (j + 1) k + 1 <= emax - prec ->
  exists v, int_add n x = Ok v /\ below (Z.max (j + 1) k + 2) v = true.
Proof.
  intros Hn Hj Hx Hmax. unfold emin, prec, emax in *.
  destruct (of_int_below n j Hn) as (fn & Efn & Hfn); [ unfold emax; lia | ].
  unfold int_add. rewrite Efn. cbn [bind]. eexists; split; [ reflexivity | ].
  apply add_below; unfold emin, prec, emax; auto; lia.
Qed.

(** With 8-bit channels and a factor of magnitude below [2^960]
    nothing overflows: the interpolated value is finite. *)
Lemma interpolate_value_finite (c1 c2 : Z) (factor : float) :
  0 <= c1 <= 255 -> 0 <= c2 <= 255 -> below 960 factor = true ->
  exists v, interpolate_value c1 c2 factor = Ok v /\ is_finite v = true.
Proof.
  intros H1 H2 Hf.
  assert (B1 : Z.abs (c2 - c1) < 2 ^ 8) by (change (2 ^ 8) with 256; lia).
  assert (B2 : Z.abs c1 < 2 ^ 8) by (change (2 ^ 8) with 256; lia).
  assert (R8 : 0 <= 8 < emax) by (unfold emax; lia).
  destruct (int_mul_below (c2 - c1) 8 960 factor B1 R8 Hf) as (p & Ep & Hp);
    [ unfold emin, prec, emax; lia | unfold emin, prec, emax; lia | ].
  destruct (int_add_below c1 8 (8 + 960 + 2) p B2 R8 Hp) as (v & Ev & Hv);
    [ unfold emin, prec, emax; lia | ].
  unfold interpolate_value. rewrite Ep. cbn [bind]. rewrite Ev.
  eexists; split; [ reflexivity | ]. eapply below_is_finite; exact Hv.
Qed.

Lemma interpolate_channel_truncates (c1 c2 : Z) (factor : float) :
  0 <= c1 <= 255 -> 0 <= c2 <= 255 -> below 960 factor = true ->
  exists v, interpolate_value c1 c2 factor = Ok v
            /\ is_finite v = true
            /\ interpolate_channel c1 c2 factor = Ok (truncate v).
Proof.
  intros H1 H2 Hf.
  destruct (interpolate_value_finite c1 c2 factor H1 H2 Hf) as (v & Ev & Hv).
  exists v. split; [ exact Ev | split; [ exact Hv | ] ].
  unfold interpolate_channel. rewrite Ev. cbn [bind]. apply to_int_truncate, Hv.
Qed.

End Channels.

(** ** Parsing of hexadecimal colours *)

Section Characters.

Lemma all_ascii_complete (c : ascii) : In c all_ascii.
Proof.
  unfold all_ascii. rewrite <- (ascii_nat_embedding c).
  apply in_map, in_seq. pose proof (nat_ascii_bounded c). lia.
Qed.

(** A property checked on the 256 characters holds of every
    character. *)
Lemma forall_ascii (p : ascii -> bool) :
  forallb p all_ascii = true -> forall c, p c = true.
Proof.
  intros H c. rewrite forallb_forall in H. apply H, all_ascii_complete.
Qed.

Lemma forall_ascii2 (p : ascii -> ascii -> bool) :
  forallb (fun c0 => forallb (p c0) all_ascii) all_ascii = true ->
  forall c0 c1, p c0 c1 = true.
Proof.
  intros H c0 c1.
  apply (forall_ascii (p c0)), (forall_ascii (fun c => forallb (p c) all_ascii)), H.
Qed.

Lemma hex_digit_facts (c : ascii) :
  PyStr.is_hex_digit c = true ->
  Ascii.eqb c "#" = false /\ 0 <= PyStr.digit_value c <= 15.
Proof.
  intros Hc.
  assert (H : implb (PyStr.is_hex_digit c)
                (negb (Ascii.eqb c "#") && (0 <=? PyStr.digit_value c)
                 && (PyStr.digit_value c <=? 15)) = true).
  { revert c Hc. intros c _. revert c. apply forall_ascii. vm_compute. reflexivity. }
  rewrite Hc in H. cbn [implb] in H.
  apply andb_prop in H as [H H3]. apply andb_prop in H as [H1 H2].
  apply negb_true_iff in H1. apply Z.leb_le in H2, H3. auto.
Qed.

(** [int(s, 16)] on one and two characters. *)
Lemma int16_hex_pair (c0 c1 : ascii) :
  PyStr.is_hex_digit c0 = true -> PyStr.is_hex_digit c1 = true ->
  PyStr.int16 (String c0 (String c1 EmptyString)) = Ok (hex_pair c0 c1).
Proof.
  intros H0 H1.
  assert (H : implb (PyStr.is_hex_digit c0 && PyStr.is_hex_digit c1)
                (returns (PyStr.int16 (String c0 (String c1 EmptyString)))
                   (hex_pair c0 c1)) = true).
  { clear H0 H1. revert c0 c1. apply forall_ascii2. vm_compute. reflexivity. }
  rewrite H0, H1 in H. cbn [andb implb] in H. unfold returns in H.
  destruct (PyStr.int16 _) as [ v | ]; [ | discriminate ].
  apply Z.eqb_eq in H. congruence.
Qed.

Lemma raises_ValueError_eq {A : Type} (r : result A) :
  raises_ValueError r = true -> r = Raise ValueError.
Proof. destruct r as [ | [ | | | ] ]; cbn; congruence. Qed.

Lemma int16_bad_pair (c0 c1 : ascii) :
  is_bad_char c0 || is_bad_char c1 = true ->
  PyStr.int16 (String c0 (String c1 EmptyString)) = Raise ValueError.
Proof.
  intros Hb. apply raises_ValueError_eq.
  assert (H : implb (is_bad_char c0 || is_bad_char c1)
                (raises_ValueError (PyStr.int16 (String c0 (String c1 EmptyString))))
              = true).
  { clear Hb. revert c0 c1. apply forall_ascii2. vm_compute. reflexivity. }
  rewrite Hb in H. exact H.
Qed.

Lemma int16_bad_single (c0 : ascii) :
  is_bad_char c0 = true ->
  PyStr.int16 (String c0 EmptyString) = Raise ValueError.
Proof.
  intros Hb. apply raises_ValueError_eq.
  assert (H : implb (is_bad_char c0)
                (raises_ValueError (PyStr.int16 (String c0 EmptyString))) = true).
  { clear Hb. revert c0. apply forall_ascii. vm_compute. reflexivity. }
  rewrite Hb in H. exact H.
Qed.

End Characters.

Section HexColours.

Lemma int16_raises_ValueError (s : string) (e : exn) :
  PyStr.int16 s = Raise e -> e = ValueError.
Proof.
  unfold PyStr.int16.
  destruct (PyStr.strip_sign _) as [neg s1].
  destruct (PyStr.strip_prefix16 s1) as [ | c s2 ].
  - destruct (PyStr.scan_digits 16 "" 0 false false) as [ [v rest] | ];
      [ destruct (PyStr.all_spaces rest) | ]; congruence.
  - destruct (Ascii.eqb_spec c "_") as [ -> | Hc ]; [ congruence | ].
    assert (H : forall r : result Z,
               match c with
               | "_"%char => Raise ValueError
               | _ => r
               end = r).
    { intros r. destruct c as [ [ | ] [ | ] [ | ] [ | ] [ | ] [ | ] [ | ] [ | ] ];
        try reflexivity. congruence. }
    rewrite H.
    destruct (PyStr.scan_digits 16 (String c s2) 0 false false) as [ [v rest] | ];
      [ destruct (PyStr.all_spaces rest) | ]; congruence.
Qed.

(** [hex_to_rgb] fails as soon as one of the three slices it reads
    is not a literal. *)
Lemma hex_to_rgb_slice_raises (s : string) :
  let h := PyStr.lstrip_hash s in
  PyStr.int16 (PyStr.slice 0 2 h) = Raise ValueError
  \/ PyStr.int16 (PyStr.slice 2 2 h) = Raise ValueError
  \/ PyStr.int16 (PyStr.slice 4 2 h) = Raise ValueError ->
  hex_to_rgb s = Raise ValueError.
Proof.
  cbn zeta. unfold hex_to_rgb. intros H.
  destruct (PyStr.int16 (PyStr.slice 0 2 _)) as [ r | e ] eqn:E0; cbn [bind];
    [ | f_equal; eapply int16_raises_ValueError; exact E0 ].
  destruct (PyStr.int16 (PyStr.slice 2 2 _)) as [ g | e ] eqn:E2; cbn [bind];
    [ | f_equal; eapply int16_raises_ValueError; exact E2 ].
  destruct (PyStr.int16 (PyStr.slice 4 2 _)) as [ b | e ] eqn:E4; cbn [bind];
    [ | f_equal; eapply int16_raises_ValueError; exact E4 ].
  destruct H as [ H | [ H | H ] ]; discriminate H.
Qed.

Lemma append_String (c : ascii) (s t : string) :
  (String c s ++ t)%string = String c (s ++ t)%string.
Proof. reflexivity. Qed.

Lemma append_empty_r (s : string) : (s ++ "")%string = s.
Proof. induction s as [ | c s IH ]; [ reflexivity | ]. rewrite append_String, IH. reflexivity. Qed.

Lemma substring_0_0 (s : string) : String.substring 0 0 s = EmptyString.
Proof. destruct s; reflexivity. Qed.

Lemma hex_to_rgb_hex6 (s t : string) :
  is_hex6 s = true -> hex_to_rgb (s ++ t) = Ok (hex6_value s).
Proof.
  destruct s as [ | c0 [ | c1 [ | c2 [ | c3 [ | c4 [ | c5 [ | c6 s ] ] ] ] ] ] ];
    try discriminate.
  cbn [is_hex6 forallb]. intros H.
  repeat (apply andb_prop in H as [? H]).
  unfold hex_to_rgb. rewrite !append_String. cbn [PyStr.lstrip_hash].
  destruct (hex_digit_facts c0) as [-> _]; [ assumption | ].
  cbn [PyStr.slice String.substring]. rewrite substring_0_0.
  rewrite !int16_hex_pair by assumption. reflexivity.
Qed.

Lemma hex6_value_rgb8 (s : string) : is_hex6 s = true -> rgb8 (hex6_value s).
Proof.
  destruct s as [ | c0 [ | c1 [ | c2 [ | c3 [ | c4 [ | c5 [ | c6 s ] ] ] ] ] ] ];
    try discriminate.
  cbn [is_hex6 forallb]. intros H.
  repeat (apply andb_prop in H as [? H]).
  cbn [hex6_value rgb8]. unfold hex_pair.
  repeat match goal with
         | Hc : PyStr.is_hex_digit ?c = true |- _ =>
             apply hex_digit_facts in Hc as [_ ?]
         end.
  lia.
Qed.

Lemma hex_to_rgb_short (s : string) :
  (String.length (PyStr.lstrip_hash s) < 5)%nat -> hex_to_rgb s = Raise ValueError.
Proof.
  intros Hlen. apply hex_to_rgb_slice_raises. cbn zeta. right. right.
  destruct (PyStr.lstrip_hash s) as [ | c0 [ | c1 [ | c2 [ | c3 [ | c4 h ] ] ] ] ];
    cbn [String.length] in Hlen; try lia; reflexivity.
Qed.

Lemma hex_to_rgb_bad_char (s : string) :
  string_exists is_bad_char (PyStr.slice 0 6 (PyStr.lstrip_hash s)) = true ->
  hex_to_rgb s = Raise ValueError.
Proof.
  intros Hbad. apply hex_to_rgb_slice_raises. cbn zeta.
  destruct (PyStr.lstrip_hash s) as [ | c0 [ | c1 [ | c2 [ | c3 [ | c4 [ | c5 h ] ] ] ] ] ];
    cbn [PyStr.slice String.substring string_exists] in *;
    try (right; right; reflexivity).
  - destruct (is_bad_char c0 || is_bad_char c1) eqn:E01;
      [ left; apply int16_bad_pair, E01 | right ].
    destruct (is_bad_char c2 || is_bad_char c3) eqn:E23;
      [ left; apply int16_bad_pair, E23 | right ].
    apply int16_bad_single.
    apply orb_false_elim in E01 as [E0 E1]. apply orb_false_elim in E23 as [E2 E3].
    rewrite E0, E1, E2, E3 in Hbad. cbn [orb] in Hbad.
    destruct (is_bad_char c4); [ reflexivity | discriminate Hbad ].
  - rewrite substring_0_0 in Hbad. cbn [string_exists] in Hbad.
    destruct (is_bad_char c0 || is_bad_char c1) eqn:E01;
      [ left; apply int16_bad_pair, E01 | right ].
    destruct (is_bad_char c2 || is_bad_char c3) eqn:E23;
      [ left; apply int16_bad_pair, E23 | right ].
    rewrite substring_0_0. apply int16_bad_pair.
    apply orb_false_elim in E01 as [E0 E1]. apply orb_false_elim in E23 as [E2 E3].
    rewrite E0, E1, E2, E3 in Hbad. cbn [orb] in Hbad.
    destruct (is_bad_char c4), (is_bad_char c5); try reflexivity; discriminate Hbad.
Qed.

Lemma is_bad_char_iff (c : ascii) :
  is_bad_char c = true
  <-> 33 <= PyStr.code c <= 255
      /\ PyStr.code c <> 133 /\ PyStr.code c <> 160
      /\ PyStr.is_hex_digit c = false /\ c <> "+"%char /\ c <> "-"%char.
Proof.
  assert (Hc : PyStr.code c <= 255).
  { unfold PyStr.code. pose proof (nat_ascii_bounded c). lia. }
  unfold is_bad_char.
  rewrite !andb_true_iff, !negb_true_iff, !orb_false_iff.
  rewrite Z.leb_le, !Z.eqb_neq.
  destruct (Ascii.eqb_spec c "+"), (Ascii.eqb_spec c "-"); intuition congruence || lia.
Qed.

End HexColours.

Example hex_to_rgb_with_hash : hex_to_rgb "#70D1C7" = Ok (112, 209, 199).
Proof. reflexivity. Qed.

Example hex_to_rgb_without_hash : hex_to_rgb "5bbfb5" = Ok (91, 191, 181).
Proof. reflexivity. Qed.

Example hex_to_rgb_five_digits : hex_to_rgb "12345" = Ok (18, 52, 5).
Proof. reflexivity. Qed.

Example hex_to_rgb_signs : hex_to_rgb "-1-2-3" = Ok (-1, -2, -3).
Proof. reflexivity. Qed.

(** C4 (amended). [hex_to_rgb] parses a string of exactly six
    hexadecimal digits, with or without a leading ['#'], into three
    8-bit channels.  It validates nothing but the three two-character
    slices it reads: characters after the sixth are ignored, so longer
    strings are accepted; it raises ValueError when fewer than five
    characters remain after the prefix.  For strings of characters
    with codes below 256, it raises ValueError when one of the first
    six characters has a code from 33 to 255 and is neither a
    hexadecimal digit, nor a sign, nor one of the blanks NEL (133) and
    NBSP (160); blanks around a digit are accepted, as in [" 1 2 3"]. *)
Theorem hex_to_rgb_reads_three_slices :
  (forall s : string,
      is_hex6 s = true ->
      hex_to_rgb s = Ok (hex6_value s)
      /\ hex_to_rgb (String "#" s) = Ok (hex6_value s)
      /\ rgb8 (hex6_value s)
      /\ forall t : string, hex_to_rgb (s ++ t) = Ok (hex6_value s))
  /\ (forall s : string,
         (String.length (PyStr.lstrip_hash s) < 5)%nat ->
         hex_to_rgb s = Raise ValueError)
  /\ (forall s : string,
         string_exists is_bad_char (PyStr.slice 0 6 (PyStr.lstrip_hash s)) = true ->
         hex_to_rgb s = Raise ValueError)
  /\ (forall c : ascii,
         is_bad_char c = true
         <-> 33 <= PyStr.code c <= 255
             /\ PyStr.code c <> 133 /\ PyStr.code c <> 160
             /\ PyStr.is_hex_digit c = false /\ c <> "+"%char /\ c <> "-"%char)
  /\ hex_to_rgb " 1 2 3" = Ok (1, 2, 3).
Proof.
  split; [ | split; [ | split; [ | split ] ] ].
  - intros s Hs. split; [ | split; [ | split ] ].
    + rewrite <- (hex_to_rgb_hex6 s EmptyString Hs), append_empty_r. reflexivity.
    + rewrite <- (hex_to_rgb_hex6 s EmptyString Hs), append_empty_r. reflexivity.
    + apply hex6_value_rgb8, Hs.
    + intros t. apply hex_to_rgb_hex6, Hs.
  - apply hex_to_rgb_short.
  - apply hex_to_rgb_bad_char.
  - apply is_bad_char_iff.
  - reflexivity.
Qed.

Lemma hex_to_rgb_reads_three_slices_witness :
  hex_to_rgb "5bbfb5" = Ok (91, 191, 181)
  /\ hex_to_rgb "#5bbfb5" = Ok (91, 191, 181)
  /\ hex_to_rgb "12" = Raise ValueError
  /\ hex_to_rgb "#70D1Cz" = Raise ValueError.
Proof.
  destruct hex_to_rgb_reads_three_slices as (Hparse & Hshort & Hbad & _).
  destruct (Hparse "5bbfb5"%string) as (H1 & H2 & _); [ reflexivity | ].
  split; [ exact H1 | split; [ exact H2 | split ] ].
  - apply Hshort. cbn. lia.
  - apply Hbad. reflexivity.
Defined.

(** C4, as stated, fails: eight hexadecimal digits are not six, and
    they are parsed, the last two being ignored. *)
Lemma hex_to_rgb_accepts_eight_digits :
  is_hex6 "70D1C7FF" = false /\ hex_to_rgb "70D1C7FF" = Ok (112, 209, 199).
Proof. split; reflexivity. Qed.

(** ** Interpolation of colours *)

Section Interpolation.

Lemma in_range (n x : Z) : 0 <= x < n -> In x (range n).
Proof.
  intros Hx. unfold range. rewrite <- (Z2Nat.id x) by lia.
  apply in_map, in_seq. lia.
Qed.

Lemma range_bounds (n x : Z) : In x (range n) -> 0 <= x < n.
Proof.
  unfold range. intros H. apply in_map_iff in H as (k & <- & Hk).
  apply in_seq in Hk. lia.
Qed.

(** A property checked on [range n] holds of every integer of
    [0 .. n-1]. *)
Lemma forall_range (n : Z) (p : Z -> bool) :
  forallb p (range n) = true -> forall x, 0 <= x < n -> p x = true.
Proof.
  intros H x Hx. rewrite forallb_forall in H. apply H, in_range, Hx.
Qed.

Lemma channel_endpoints (a b : Z) :
  0 <= a <= 255 -> 0 <= b <= 255 ->
  interpolate_channel a b zero = Ok a /\ interpolate_channel a b one = Ok b.
Proof.
  intros Ha Hb.
  assert (Hall : forallb
                   (fun a => forallb
                               (fun b => returns (interpolate_channel a b zero) a
                                         && returns (interpolate_channel a b one) b)
                               (range 256))
                   (range 256) = true) by (vm_compute; reflexivity).
  pose proof (forall_range 256 _ Hall a ltac:(lia)) as Hrow. cbv beta in Hrow.
  pose proof (forall_range 256 _ Hrow b ltac:(lia)) as H. cbv beta in H.
  apply andb_prop in H as [H0 H1]. unfold returns in H0, H1.
  destruct (interpolate_channel a b zero) as [ v0 | ]; [ | discriminate ].
  destruct (interpolate_channel a b one) as [ v1 | ]; [ | discriminate ].
  apply Z.eqb_eq in H0, H1. split; congruence.
Qed.

Lemma in_unit_interval_cases (f : float) :
  in_unit_interval f = true ->
  (exists s, f = S754_zero s) \/ (exists m e, f = S754_finite false m e).
Proof.
  unfold in_unit_interval, zero, one.
  destruct f as [ s | s | | s m e ]; cbn [SFleb SFcompare andb].
  - eauto.
  - destruct s; discriminate.
  - discriminate.
  - destruct s; [ discriminate | eauto ].
Qed.

Lemma channel_identity (a : Z) (f : float) :
  0 <= a <= 255 -> in_unit_interval f = true -> interpolate_channel a a f = Ok a.
Proof.
  intros Ha Hf.
  assert (Hz : forall s, returns (v <- int_add a (S754_zero s) ;; to_int v) a = true).
  { intros s.
    assert (Hall : forallb
                     (fun a => returns (v <- int_add a (S754_zero true) ;; to_int v) a
                               && returns (v <- int_add a (S754_zero false) ;; to_int v) a)
                     (range 256) = true) by (vm_compute; reflexivity).
    pose proof (forall_range 256 _ Hall a ltac:(lia)) as H. cbv beta in H.
    apply andb_prop in H as [Ht Hf']. destruct s; assumption. }
  unfold interpolate_channel, interpolate_value, int_mul.
  rewrite Z.sub_diag. change (of_int 0) with (Ok (S754_zero false)). cbn [bind].
  assert (Hm : exists s, mul (S754_zero false) f = S754_zero s).
  { destruct (in_unit_interval_cases f Hf) as [ [s ->] | (m & e & ->) ];
      cbn [mul SFmul]; eauto. }
  destruct Hm as [s ->]. specialize (Hz s). unfold returns in Hz.
  destruct (int_add a (S754_zero s)) as [ v | ]; cbn [bind] in *; [ | discriminate ].
  destruct (to_int v); [ apply Z.eqb_eq in Hz; congruence | discriminate ].
Qed.

Lemma truncate_nonnegative (v : float) :
  is_negative v = false -> truncate v = floor v.
Proof. unfold truncate. intros ->. cbn [andb]. lia. Qed.

Lemma truncate_integral (v : float) :
  is_integral v = true -> truncate v = floor v.
Proof. unfold truncate. intros ->. rewrite andb_false_r. lia. Qed.

Lemma truncate_negative (v : float) :
  is_negative v = true -> is_integral v = false -> truncate v = floor v + 1.
Proof. unfold truncate. intros -> ->. reflexivity. Qed.

End Interpolation.

(** C8. [interpolate_color] with both ends equal gives that colour
    for every factor of [[0, 1]]; at factor 0 it gives the first
    colour and at factor 1 the second, exactly. *)
Theorem interpolate_color_endpoints
  (colorA colorB : string) (rgbA rgbB : ColorRGB) :
  hex_to_rgb colorA = Ok rgbA -> rgb8 rgbA ->
  hex_to_rgb colorB = Ok rgbB -> rgb8 rgbB ->
  (forall f : float,
      in_unit_interval f = true -> interpolate_color colorA colorA f = Ok rgbA)
  /\ interpolate_color colorA colorB zero = Ok rgbA
  /\ interpolate_color colorA colorB one = Ok rgbB.
Proof.
  intros EA HA EB HB.
  destruct rgbA as [ [rA gA] bA ], rgbB as [ [rB gB] bB ].
  destruct HA as (HrA & HgA & HbA), HB as (HrB & HgB & HbB).
  unfold interpolate_color. rewrite EA, EB. cbn [bind].
  split; [ | split ].
  - intros f Hf. rewrite !channel_identity by assumption. reflexivity.
  - destruct (channel_endpoints rA rB) as [-> _]; try assumption.
    destruct (channel_endpoints gA gB) as [-> _]; try assumption.
    destruct (channel_endpoints bA bB) as [-> _]; try assumption.
    reflexivity.
  - destruct (channel_endpoints rA rB) as [_ ->]; try assumption.
    destruct (channel_endpoints gA gB) as [_ ->]; try assumption.
    destruct (channel_endpoints bA bB) as [_ ->]; try assumption.
    reflexivity.
Qed.

Lemma interpolate_color_endpoints_witness :
  interpolate_color COLOR_START COLOR_START half = Ok (112, 209, 199)
  /\ interpolate_color COLOR_START COLOR_END zero = Ok (112, 209, 199)
  /\ interpolate_color COLOR_START COLOR_END one = Ok (91, 191, 181).
Proof.
  destruct (interpolate_color_endpoints COLOR_START COLOR_END
              (112, 209, 199) (91, 191, 181)) as (Hid & H0 & H1);
    [ reflexivity | cbn; lia | reflexivity | cbn; lia | ].
  split; [ apply Hid; reflexivity | split; assumption ].
Defined.

(** C5 (amended). For two colours with 8-bit channels and every
    finite factor of magnitude below [2^960], inside or outside
    [[0, 1]], each channel of [interpolate_color] is the double
    [a + (b - a) * factor] truncated toward zero: its floor when it is
    not negative or is an integer, and its floor plus one otherwise. *)
Theorem interpolate_color_truncates
  (colorA colorB : string) (rA gA bA rB gB bB : Z) (factor : float) :
  hex_to_rgb colorA = Ok (rA, gA, bA) -> rgb8 (rA, gA, bA) ->
  hex_to_rgb colorB = Ok (rB, gB, bB) -> rgb8 (rB, gB, bB) ->
  below 960 factor = true ->
  exists vr vg vb : float,
    interpolate_value rA rB factor = Ok vr
    /\ interpolate_value gA gB factor = Ok vg
    /\ interpolate_value bA bB factor = Ok vb
    /\ interpolate_color colorA colorB factor
       = Ok (truncate vr, truncate vg, truncate vb).
Proof.
  intros EA (HrA & HgA & HbA) EB (HrB & HgB & HbB) Hf.
  destruct (interpolate_channel_truncates rA rB factor) as (vr & Er & _ & Cr); try assumption.
  destruct (interpolate_channel_truncates gA gB factor) as (vg & Eg & _ & Cg); try assumption.
  destruct (interpolate_channel_truncates bA bB factor) as (vb & Eb & _ & Cb); try assumption.
  exists vr, vg, vb. repeat (split; [ assumption | ]).
  unfold interpolate_color. rewrite EA, EB. cbn [bind]. rewrite Cr, Cg, Cb. reflexivity.
Qed.

Lemma interpolate_color_truncates_witness :
  exists vr vg vb : float,
    interpolate_value 112 91 half = Ok vr
    /\ interpolate_value 209 191 half = Ok vg
    /\ interpolate_value 199 181 half = Ok vb
    /\ interpolate_color COLOR_START COLOR_END half
       = Ok (truncate vr, truncate vg, truncate vb).
Proof.
  apply (interpolate_color_truncates COLOR_START COLOR_END);
    [ reflexivity | cbn; lia | reflexivity | cbn; lia | reflexivity ].
Defined.

(** C5, as stated, fails: with channels 0 and 2 and the factor -1/4
    the value is -1/2, whose floor is -1, and the channel is 0. *)
Lemma interpolate_color_is_not_floor :
  let factor := S754_finite true 4503599627370496 (-54) in
  dyadic factor = (- 2 ^ 52, 54)
  /\ interpolate_color "000000" "020000" factor = Ok (0, 0, 0)
  /\ floor_interpolation 0 2 factor = -1.
Proof. cbn zeta. split; [ | split ]; vm_compute; reflexivity. Qed.

(** ** The gradient background *)

Section Gradient.

Variable size : Z.
Hypothesis size_pos : 0 < size.

Lemma truediv_row (y : Z) :
  0 <= y < size -> exists f, truediv y size = Ok f /\ below 1 f = true.
Proof.
  intros Hy. destruct (Z.eq_dec y 0) as [ -> | Hnz ].
  - unfold truediv. destruct (Z.eqb_spec size 0); [ lia | ].
    cbn [Z.eqb]. eexists; split; reflexivity.
  - apply truediv_below. lia.
Qed.

Lemma gradient_color_ok (f : float) :
  below 1 f = true -> exists c, interpolate_color COLOR_START COLOR_END f = Ok c.
Proof.
  intros Hf. apply (below_mono 1 960) in Hf; [ | lia ].
  destruct (interpolate_channel_truncates 112 91 f) as (vr & _ & _ & Cr); try lia; auto.
  destruct (interpolate_channel_truncates 209 191 f) as (vg & _ & _ & Cg); try lia; auto.
  destruct (interpolate_channel_truncates 199 181 f) as (vb & _ & _ & Cb); try lia; auto.
  unfold interpolate_color.
  change (hex_to_rgb COLOR_START) with (Ok (A := ColorRGB) (112, 209, 199)).
  change (hex_to_rgb COLOR_END) with (Ok (A := ColorRGB) (91, 191, 181)).
  cbn [bind]. rewrite Cr, Cg, Cb. cbn [bind]. eauto.
Qed.

Lemma row_color_ok (y : Z) :
  0 <= y < size ->
  exists f r g b,
    truediv y size = Ok f
    /\ interpolate_color COLOR_START COLOR_END f = Ok (r, g, b)
    /\ row_color size y = Ok (r, g, b).
Proof.
  intros Hy. destruct (truediv_row y Hy) as (f & Ef & Hf).
  destruct (gradient_color_ok f Hf) as ([ [r g] b ] & Ec).
  exists f, r, g, b. unfold row_color. rewrite Ef. cbn [bind]. auto.
Qed.

(** The loop over some rows of a canvas of width [size]: it ends
    normally, keeps the dimensions, fills each pixel of the rows
    visited with the row's colour at full opacity, and leaves the
    other rows as they were. *)
Lemma gradient_rows (ys : list Z) (img : Image RGBA) :
  width img = size ->
  (forall y, In y ys -> 0 <= y < size) ->
  exists img',
    for_each
      (fun img y =>
         factor <- truediv y size ;;
         color <- interpolate_color COLOR_START COLOR_END factor ;;
         Ok (draw_hline img 0 y size color))
      ys img = Ok img'
    /\ width img' = width img
    /\ height img' = height img
    /\ (forall x y r g b,
           In y ys -> inside img x y = true -> row_color size y = Ok (r, g, b) ->
           pixel img' x y = (r, g, b, 255))
    /\ (forall x y, ~ In y ys -> pixel img' x y = pixel img x y).
Proof.
  revert img. induction ys as [ | y0 ys IH ]; intros img Hw Hys.
  - exists img. cbn [for_each]. repeat split; auto. intros x y r g b [].
  - destruct (row_color_ok y0) as (f & r0 & g0 & b0 & Ef & Ec & Erow);
      [ apply Hys; left; reflexivity | ].
    set (img1 := draw_hline img 0 y0 size (r0, g0, b0)).
    destruct (IH img1) as (img' & Efor & Hw' & Hh' & Hin & Hout);
      [ exact Hw | intros y Hy; apply Hys; right; exact Hy | ].
    exists img'. cbn [for_each]. rewrite Ef. cbn [bind].
    rewrite Ec. cbn [bind]. fold img1.
    split; [ exact Efor | ]. split; [ exact Hw' | ]. split; [ exact Hh' | ].
    split.
    + intros x y r g b Hy Hins Hrow.
      destruct (in_dec Z.eq_dec y ys) as [ Hys' | Hnot ].
      * apply Hin; auto.
      * destruct Hy as [ <- | Hy ]; [ | contradiction ].
        rewrite Hout by exact Hnot.
        rewrite Erow in Hrow. injection Hrow as <- <- <-.
        unfold img1, draw_hline, paint. cbn [pixel]. rewrite Hins. cbn [andb].
        unfold inside in Hins. rewrite Hw in Hins.
        repeat (apply andb_prop in Hins as [Hins ?]).
        rewrite Z.eqb_refl. cbn [andb].
        destruct (Z.leb_spec (Z.min 0 size) x); [ | lia ].
        destruct (Z.leb_spec x (Z.max 0 size)); [ reflexivity | lia ].
    + intros x y Hnot. rewrite Hout by (intros H; apply Hnot; right; exact H).
      unfold img1, draw_hline, paint. cbn [pixel].
      destruct (Z.eqb_spec y y0) as [ -> | Hne ];
        [ exfalso; apply Hnot; left; reflexivity | ].
      cbn [andb]. rewrite andb_false_r. reflexivity.
Qed.

(** The whole background. *)
Lemma gradient_background :
  exists img,
    create_gradient_background size = Ok img
    /\ width img = size
    /\ height img = size
    /\ forall x y r g b,
        0 <= x < size -> 0 <= y < size -> row_color size y = Ok (r, g, b) ->
        getpixel img x y = Some (r, g, b, 255).
Proof.
  unfold create_gradient_background, Pillow.new.
  destruct (Z.ltb_spec size 0) as [ | _ ]; [ lia | ]. cbn [orb bind].
  set (img0 := {| width := size; height := size;
                  pixel := fun _ _ : Z => (0, 0, 0, 0) |}).
  destruct (gradient_rows (range size) img0) as (img & Efor & Hw & Hh & Hin & _);
    [ reflexivity | apply range_bounds | ].
  exists img. split; [ exact Efor | ].
  split; [ exact Hw | ]. split; [ exact Hh | ].
  intros x y r g b Hx Hy Hrow.
  assert (Hins : inside img0 x y = true).
  { unfold inside. cbn [width height img0]. lia. }
  unfold getpixel.
  assert (Hins' : inside img x y = true).
  { unfold inside in *. rewrite Hw, Hh. exact Hins. }
  rewrite Hins'. f_equal. apply Hin; [ apply in_range, Hy | exact Hins | exact Hrow ].
Qed.

End Gradient.

Lemma returns_color_iff (r : result ColorRGB) (c : ColorRGB) :
  returns_color r c = true <-> r = Ok c.
Proof.
  destruct r as [ [ [r0 g0] b0 ] | e ], c as [ [r1 g1] b1 ]; cbn [returns_color].
  - rewrite !andb_true_iff, !Z.eqb_eq. split; [ intros [ [-> ->] ->] | intros [= -> -> ->] ]; auto.
  - split; discriminate.
Qed.

(** Up to size 4096, the bottom row has the end colour exactly from
    size 22 on. *)
Lemma bottom_row_end_color (size : Z) :
  0 < size <= 4096 ->
  row_color size (size - 1) = Ok (91, 191, 181) <-> 22 <= size.
Proof.
  intros Hs.
  assert (Hall : forallb
                   (fun s => (s =? 0)
                             || Bool.eqb (returns_color (row_color s (s - 1)) (91, 191, 181))
                                  (22 <=? s))
                   (range 4097) = true) by (vm_compute; reflexivity).
  pose proof (forall_range 4097 _ Hall size ltac:(lia)) as H. cbv beta in H.
  destruct (Z.eqb_spec size 0); [ lia | ]. cbn [orb] in H.
  apply eqb_prop in H. rewrite <- returns_color_iff, H. apply Z.leb_le.
Qed.

Lemma row_color_top (size : Z) : 0 < size -> row_color size 0 = Ok (112, 209, 199).
Proof.
  intros Hs. unfold row_color, truediv.
  destruct (Z.eqb_spec size 0); [ lia | ]. cbn [Z.eqb bind].
  destruct (Z.ltb_spec size 0); [ lia | ]. vm_compute. reflexivity.
Qed.

(** C2. For every positive size, [create_gradient_background] starts
    from a fully transparent canvas of that size and returns a canvas
    of that size in which every pixel of every row [y] holds the
    colour [interpolate_color(COLOR_START, COLOR_END, y / size)] with
    alpha 255. *)
Theorem create_gradient_background_rows (size : Z) :
  0 < size ->
  exists img0 img : Image RGBA,
    Pillow.new size size (0, 0, 0, 0) = Ok img0
    /\ width img0 = size
    /\ height img0 = size
    /\ (forall x y, pixel img0 x y = (0, 0, 0, 0))
    /\ create_gradient_background size
       = for_each
           (fun img y =>
              factor <- truediv y size ;;
              color <- interpolate_color COLOR_START COLOR_END factor ;;
              Ok (draw_hline img 0 y size color))
           (range size) img0
    /\ create_gradient_background size = Ok img
    /\ width img = size
    /\ height img = size
    /\ forall x y,
        0 <= x < size -> 0 <= y < size ->
        exists factor r g b,
          truediv y size = Ok factor
          /\ interpolate_color COLOR_START COLOR_END factor = Ok (r, g, b)
          /\ getpixel img x y = Some (r, g, b, 255).
Proof.
  intros Hs.
  destruct (gradient_background size Hs) as (img & Eimg & Hw & Hh & Hpix).
  exists {| width := size; height := size; pixel := fun _ _ : Z => (0, 0, 0, 0) |}, img.
  assert (Enew : Pillow.new size size (0, 0, 0, 0)
                 = Ok {| width := size; height := size;
                         pixel := fun _ _ : Z => (0, 0, 0, 0) |}).
  { unfold Pillow.new. destruct (Z.ltb_spec size 0); [ lia | reflexivity ]. }
  split; [ exact Enew | ]. do 3 (split; [ reflexivity | ]).
  split; [ unfold create_gradient_background; rewrite Enew; reflexivity | ].
  split; [ exact Eimg | ]. split; [ exact Hw | ]. split; [ exact Hh | ].
  intros x y Hx Hy.
  destruct (row_color_ok size Hs y Hy) as (f & r & g & b & Ef & Ec & Erow).
  exists f, r, g, b. split; [ exact Ef | ]. split; [ exact Ec | ].
  apply Hpix; assumption.
Qed.

Lemma create_gradient_background_rows_witness :
  exists img : Image RGBA,
    create_gradient_background 16 = Ok img
    /\ width img = 16
    /\ exists factor r g b,
        truediv 15 16 = Ok factor
        /\ interpolate_color COLOR_START COLOR_END factor = Ok (r, g, b)
        /\ getpixel img 3 15 = Some (r, g, b, 255).
Proof.
  destruct (create_gradient_background_rows 16) as
    (img0 & img & _ & _ & _ & _ & _ & Eimg & Hw & _ & Hpix); [ lia | ].
  exists img. split; [ exact Eimg | ]. split; [ exact Hw | ].
  apply Hpix; lia.
Defined.

(** ** Row factors below one

    Rounding cannot cross a double: a value that is at most
    [hi * 2^(-k)], with [hi] below [2^53], is rounded to a float that
    is at most that. *)

Section ExactShift.

Lemma shr_1_exact (mrs : shr_record) :
  0 <= shr_m mrs -> shr_r mrs = false -> shr_s mrs = false ->
  (exists k, shr_m mrs = k * 2) ->
  shr_r (shr_1 mrs) = false /\ shr_s (shr_1 mrs) = false.
Proof.
  destruct mrs as [m r s]. cbn [shr_m shr_r shr_s]. intros Hm -> -> [k Hk].
  destruct m as [ | [ p | p | ] | p ]; cbn [shr_1 shr_r shr_s orb]; auto; lia.
Qed.

(** Shifting out bits that are all zero leaves no trace in the record. *)
Lemma iter_shr_1_exact (p : positive) (mrs : shr_record) :
  0 <= shr_m mrs -> shr_r mrs = false -> shr_s mrs = false ->
  (exists k, shr_m mrs = k * 2 ^ Zpos p) ->
  shr_r (iter_pos shr_1 p mrs) = false /\ shr_s (iter_pos shr_1 p mrs) = false.
Proof.
  revert mrs. induction p as [ p IH | p IH | ]; intros mrs Hm Hr Hs [k Hk];
    cbn [iter_pos].
  - assert (Hpos : 0 < 2 ^ Zpos p) by (apply Z.pow_pos_nonneg; lia).
    assert (Hpow : 2 ^ Zpos p~1 = 2 * 2 ^ Zpos p * 2 ^ Zpos p).
    { replace (Zpos p~1) with (1 + Zpos p + Zpos p) by lia.
      rewrite !Z.pow_add_r by lia. lia. }
    rewrite Hpow in Hk.
    destruct (shr_1_exact mrs Hm Hr Hs) as [Hr1 Hs1];
      [ exists (k * 2 ^ Zpos p * 2 ^ Zpos p); lia | ].
    assert (Hm1 : shr_m (shr_1 mrs) = k * 2 ^ Zpos p * 2 ^ Zpos p).
    { rewrite shr_1_m by lia. rewrite Hk.
      replace (k * (2 * 2 ^ Zpos p * 2 ^ Zpos p)) with (k * 2 ^ Zpos p * 2 ^ Zpos p * 2)
        by lia.
      apply Z.div_mul. lia. }
    assert (Hk0 : 0 <= k) by nia.
    destruct (IH (shr_1 mrs)) as [Hr2 Hs2]; auto;
      [ rewrite Hm1; nia | exists (k * 2 ^ Zpos p); lia | ].
    apply IH; auto.
    + rewrite iter_shr_1_m by (rewrite Hm1; nia). apply Z.div_pos; [ rewrite Hm1; nia | lia ].
    + exists k. rewrite iter_shr_1_m by (rewrite Hm1; nia). rewrite Hm1.
      apply Z.div_mul. lia.
  - assert (Hpos : 0 < 2 ^ Zpos p) by (apply Z.pow_pos_nonneg; lia).
    assert (Hpow : 2 ^ Zpos p~0 = 2 ^ Zpos p * 2 ^ Zpos p).
    { replace (Zpos p~0) with (Zpos p + Zpos p) by lia.
      rewrite Z.pow_add_r by lia. reflexivity. }
    rewrite Hpow in Hk.
    assert (Hk0 : 0 <= k) by nia.
    destruct (IH mrs) as [Hr2 Hs2]; auto; [ exists (k * 2 ^ Zpos p); lia | ].
    apply IH; auto.
    + rewrite iter_shr_1_m by lia. apply Z.div_pos; lia.
    + exists k. rewrite iter_shr_1_m by lia. rewrite Hk.
      replace (k * (2 ^ Zpos p * 2 ^ Zpos p)) with (k * 2 ^ Zpos p * 2 ^ Zpos p) by lia.
      apply Z.div_mul. lia.
  - apply shr_1_exact; auto. exists k. exact Hk.
Qed.

Lemma loc_of_shr_record_of_loc (m : Z) (l : location) :
  loc_of_shr_record (shr_record_of_loc m l) = l.
Proof. destruct l as [ | [ | | ] ]; reflexivity. Qed.

Lemma loc_of_shr_record_exact (mrs : shr_record) :
  shr_r mrs = false -> shr_s mrs = false -> loc_of_shr_record mrs = loc_Exact.
Proof. destruct mrs as [m r s]. cbn. intros -> ->. reflexivity. Qed.

End ExactShift.

Section RoundBelow.

Variables hi k : Z.
Hypothesis k_range : 0 <= k <= 1074.
Hypothesis hi_range : 0 <= hi < 2 ^ 53.

Lemma digits_from_scaled_bound (m e : Z) :
  0 <= m -> e <= - k -> m <= hi * 2 ^ (- e - k) -> Zdigits2 m + e <= 53 - k.
Proof.
  intros Hm He Hhi.
  assert (Hpos : 0 < 2 ^ (- e - k)) by (apply Z.pow_pos_nonneg; lia).
  enough (Zdigits2 m <= 53 + (- e - k)) by lia.
  apply Zdigits2_le_iff; [ lia | lia | ].
  rewrite Z.pow_add_r by lia. nia.
Qed.

Lemma fexp_scaled (d : Z) : d <= 53 - k -> fexp prec emax d <= - k.
Proof. unfold fexp, emin, prec, emax. lia. Qed.

Lemma round_step_scaled (m e : Z) (l : location) :
  0 <= m -> e <= - k ->
  m < hi * 2 ^ (- e - k) \/ (l = loc_Exact /\ m <= hi * 2 ^ (- e - k)) ->
  let '(mrs1, e1) := shr_fexp prec emax m e l in
  let m2 := round_nearest_even (shr_m mrs1) (loc_of_shr_record mrs1) in
  e1 <= - k /\ 0 <= m2 <= hi * 2 ^ (- e1 - k).
Proof.
  intros Hm He Hhi.
  assert (Hle : m <= hi * 2 ^ (- e - k)) by (destruct Hhi as [ | [_ ?] ]; lia).
  pose proof (digits_from_scaled_bound m e Hm He Hle) as Hd.
  pose proof (fexp_scaled _ Hd) as Hf.
  unfold shr_fexp.
  pose proof (shr_spec (shr_record_of_loc m l) e
                (fexp prec emax (Zdigits2 m + e) - e)) as Hs.
  rewrite shr_record_of_loc_m in Hs. specialize (Hs Hm).
  set (n := fexp prec emax (Zdigits2 m + e) - e) in *.
  destruct (shr (shr_record_of_loc m l) e n) as [mrs1 e1] eqn:Eshr.
  destruct Hs as [ (Hn & Hm1 & He1) | (Hn & Hm1 & He1) ].
  - assert (He1' : e1 <= - k) by (unfold n in *; lia).
    assert (Hp1 : 0 < 2 ^ (- e1 - k)) by (apply Z.pow_pos_nonneg; lia).
    assert (Hpn : 0 < 2 ^ n) by (apply Z.pow_pos_nonneg; lia).
    assert (Hsplit : 2 ^ (- e - k) = 2 ^ (- e1 - k) * 2 ^ n).
    { rewrite <- Z.pow_add_r by lia. f_equal. lia. }
    rewrite Hsplit in *.
    pose proof (round_nearest_even_bounds (shr_m mrs1) (loc_of_shr_record mrs1)) as Hr.
    assert (Hlow : 0 <= shr_m mrs1).
    { rewrite Hm1. apply Z.div_pos; lia. }
    split; [ exact He1' | ]. split; [ lia | ].
    destruct (Z_lt_le_dec m (hi * 2 ^ (- e1 - k) * 2 ^ n)) as [Hlt | Hge].
    + assert (shr_m mrs1 < hi * 2 ^ (- e1 - k)).
      { rewrite Hm1. apply Z.div_lt_upper_bound; [ lia | nia ]. }
      lia.
    + destruct Hhi as [ Hstrict | [-> Hle'] ]; [ lia | ].
      assert (Em : m = hi * 2 ^ (- e1 - k) * 2 ^ n) by lia.
      assert (Hex : shr_r mrs1 = false /\ shr_s mrs1 = false).
      { unfold shr in Eshr. destruct n as [ | p | p ] eqn:En; try lia.
        injection Eshr as <- _.
        apply iter_shr_1_exact; cbn [shr_record_of_loc shr_m shr_r shr_s]; auto.
        exists (hi * 2 ^ (- e1 - k)). exact Em. }
      destruct Hex as [Hr0 Hs0].
      rewrite (loc_of_shr_record_exact mrs1 Hr0 Hs0). cbn [round_nearest_even].
      rewrite Hm1, Em. rewrite Z.div_mul by lia. lia.
  - subst mrs1 e1. rewrite shr_record_of_loc_m, loc_of_shr_record_of_loc.
    pose proof (round_nearest_even_bounds m l) as Hr.
    split; [ exact He | ]. split; [ lia | ].
    destruct Hhi as [ Hstrict | [-> Hle'] ]; [ lia | ].
    cbn [round_nearest_even]. exact Hle'.
Qed.

Lemma truncate_step_scaled (m e : Z) :
  0 <= m -> e <= - k -> m <= hi * 2 ^ (- e - k) ->
  let '(mrs3, e3) := shr_fexp prec emax m e loc_Exact in
  e3 <= - k /\ 0 <= shr_m mrs3 <= hi * 2 ^ (- e3 - k).
Proof.
  intros Hm He Hhi.
  pose proof (digits_from_scaled_bound m e Hm He Hhi) as Hd.
  pose proof (fexp_scaled _ Hd) as Hf.
  unfold shr_fexp.
  pose proof (shr_spec (shr_record_of_loc m loc_Exact) e
                (fexp prec emax (Zdigits2 m + e) - e)) as Hs.
  rewrite shr_record_of_loc_m in Hs. specialize (Hs Hm).
  set (n := fexp prec emax (Zdigits2 m + e) - e) in *.
  destruct (shr (shr_record_of_loc m loc_Exact) e n) as [mrs3 e3].
  destruct Hs as [ (Hn & Hm3 & He3) | (Hn & Hm3 & He3) ].
  - assert (He3' : e3 <= - k) by (unfold n in *; lia).
    assert (Hp3 : 0 < 2 ^ (- e3 - k)) by (apply Z.pow_pos_nonneg; lia).
    assert (Hpn : 0 < 2 ^ n) by (apply Z.pow_pos_nonneg; lia).
    assert (Hsplit : 2 ^ (- e - k) = 2 ^ (- e3 - k) * 2 ^ n).
    { rewrite <- Z.pow_add_r by lia. f_equal. lia. }
    rewrite Hsplit in *. split; [ exact He3' | ]. rewrite Hm3. split.
    + apply Z.div_pos; lia.
    + apply Z.div_le_upper_bound; [ lia | nia ].
  - subst mrs3 e3. cbn [shr_record_of_loc shr_m]. auto.
Qed.

(** Rounding a value that is at most [hi * 2^(-k)]: the result is a
    zero, or a finite float that is at most that. *)
Lemma round_below (s : bool) (m e : Z) (l : location) :
  0 <= m -> e <= - k ->
  m < hi * 2 ^ (- e - k) \/ (l = loc_Exact /\ m <= hi * 2 ^ (- e - k)) ->
  match binary_round_aux prec emax s m e l with
  | S754_zero s' => s' = s
  | S754_finite s' m' e' => s' = s /\ e' <= - k /\ Zpos m' <= hi * 2 ^ (- e' - k)
  | _ => False
  end.
Proof.
  intros Hm He Hhi. unfold binary_round_aux.
  pose proof (round_step_scaled m e l Hm He Hhi) as H1.
  destruct (shr_fexp prec emax m e l) as [mrs1 e1]. cbv zeta in H1.
  set (m2 := round_nearest_even (shr_m mrs1) (loc_of_shr_record mrs1)) in *.
  destruct H1 as (He1 & Hm2 & Hb1).
  pose proof (truncate_step_scaled m2 e1 Hm2 He1 Hb1) as H3.
  destruct (shr_fexp prec emax m2 e1 loc_Exact) as [mrs3 e3].
  destruct H3 as (He3 & Hp3 & Hb3).
  destruct (shr_m mrs3) as [ | p | p ] eqn:E3.
  - reflexivity.
  - unfold emax, prec. destruct (Z.leb_spec e3 (1024 - 53)) as [ | Hgt ]; [ | lia ].
    auto.
  - lia.
Qed.

End RoundBelow.

Section FactorsBelowOne.

(** The quotient of two ints [0 <= a < b <= 2^53] is a double below
    1: the exact quotient is at most [1 - 2^-53], which is a double. *)
Lemma truediv_below_one (a b : Z) :
  0 <= a < b -> b <= 2 ^ 53 ->
  exists f, truediv a b = Ok f /\ strictly_below_one f /\ SFltb f one = true.
Proof.
  intros [Ha Hab] Hb. unfold truediv.
  destruct (Z.eqb_spec b 0) as [ | _ ]; [ lia | ].
  destruct (Z.eqb_spec a 0) as [ -> | Hnz ].
  { eexists. split; [ reflexivity | ].
    destruct (Z.ltb_spec b 0); [ lia | ]. split; reflexivity. }
  rewrite !Z.abs_eq by lia.
  destruct (Z.ltb_spec a 0); [ lia | ]. destruct (Z.ltb_spec b 0); [ lia | ].
  cbn [xorb]. unfold SFdiv_core_binary.
  rewrite !Z.add_0_r, Z.sub_0_r.
  assert (Hdig : Zdigits2 a <= Zdigits2 b).
  { apply Zdigits2_le_iff; [ lia | apply Zdigits2_nonneg | ].
    eapply Z.lt_le_trans; [ exact Hab | ].
    apply Z.lt_le_incl, Zdigits2_lt_pow. lia. }
  set (e' := Z.min (fexp prec emax (Zdigits2 a - Zdigits2 b)) 0).
  replace (0 - e') with (- e') by lia.
  assert (He' : e' <= - 53) by (unfold e', fexp, emin, prec, emax; lia).
  set (m' := match - e' with
             | 0 => a
             | Zpos _ => Z.shiftl a (- e')
             | Zneg _ => 0
             end).
  assert (Hm' : m' = a * 2 ^ (- e')).
  { unfold m'. destruct (- e') as [ | p | p ] eqn:E; [ cbn; lia | | lia ].
    rewrite Z.shiftl_mul_pow2 by lia. reflexivity. }
  assert (Hsplit : 2 ^ (- e') = 2 ^ (- e' - 53) * 2 ^ 53).
  { rewrite <- Z.pow_add_r by lia. f_equal. lia. }
  assert (Hpos : 0 < 2 ^ (- e' - 53)) by (apply Z.pow_pos_nonneg; lia).
  pose proof (Z_div_mod m' b ltac:(lia)) as Hdm.
  destruct (Z.div_eucl m' b) as [q r] eqn:Ediv. destruct Hdm as [Hq Hr].
  rewrite Hm', Hsplit in Hq.
  set (P := 2 ^ (- e' - 53)) in *. set (T := 2 ^ 53) in *.
  assert (HT : 0 < T) by (unfold T; lia).
  assert (Hq0 : 0 <= q) by nia.
  assert (Hcase : q < (T - 1) * P \/ (r = 0 /\ q <= (T - 1) * P)).
  { destruct (Z_lt_le_dec q ((T - 1) * P)) as [ | Hge ]; [ left; assumption | right ].
    assert (Hmul : a * T <= (T - 1) * b) by nia.
    assert (Hle : b * q <= (T - 1) * P * b) by nia.
    assert (q = (T - 1) * P) by nia. nia. }
  assert (Hloc : q < (T - 1) * P
                 \/ (new_location b r = loc_Exact /\ q <= (T - 1) * P)).
  { destruct Hcase as [ | [-> Hle] ]; [ left; assumption | right ].
    split; [ | exact Hle ].
    unfold new_location, new_location_even, new_location_odd.
    destruct (Z.even b); reflexivity. }
  pose proof (round_below (T - 1) 53 ltac:(lia) ltac:(unfold T; lia) false q e'
                (new_location b r) Hq0 He' Hloc) as Hres.
  destruct (binary_round_aux prec emax false q e' (new_location b r))
    as [ s | s | | s m e ]; try contradiction.
  - eexists. split; [ reflexivity | ]. split; reflexivity.
  - destruct Hres as (-> & He & Hm). eexists. split; [ reflexivity | ].
    assert (Hpe : 0 < 2 ^ (- e - 53)) by (apply Z.pow_pos_nonneg; lia).
    assert (Hse : 2 ^ (- e) = 2 ^ (- e - 53) * T).
    { unfold T. rewrite <- Z.pow_add_r by lia. f_equal. lia. }
    split.
    + cbn [strictly_below_one]. split; [ lia | ]. rewrite Hse. nia.
    + unfold SFltb, one. cbn [SFcompare].
      destruct (Z.compare_spec e (-52)); [ lia | reflexivity | lia ].
Qed.

End FactorsBelowOne.

(** C10 (amended). In [create_gradient_background] the row index
    ranges over [[0, size - 1]], and for every size up to [2^53] the
    row factor [y / size] is a double strictly below 1.0 on every row;
    only beyond can the quotient round up to 1.0, as it does for
    [(2^54 - 1) / 2^54].  The start colour is painted exactly on row 0,
    and the bottom row holds
    [interpolate_color(COLOR_START, COLOR_END, (size-1)/size)].
    As the channels are truncated, that colour is COLOR_END itself
    from size 22 on (for every size up to 4096, so for 32, 180, 192
    and 512), and differs from it below 22, so for 16. *)
Theorem gradient_bottom_row (size : Z) :
  0 < size ->
  (forall y, In y (range size) -> 0 <= y <= size - 1 /\ size - 1 < size)
  /\ (exists img : Image RGBA,
         create_gradient_background size = Ok img
         /\ (forall x, 0 <= x < size -> getpixel img x 0 = Some (112, 209, 199, 255))
         /\ (forall x, 0 <= x < size ->
                       exists factor r g b,
                         truediv (size - 1) size = Ok factor
                         /\ interpolate_color COLOR_START COLOR_END factor = Ok (r, g, b)
                         /\ getpixel img x (size - 1) = Some (r, g, b, 255)))
  /\ (size <= 4096 -> row_color size (size - 1) = Ok (91, 191, 181) <-> 22 <= size)
  /\ hex_to_rgb COLOR_START = Ok (112, 209, 199)
  /\ hex_to_rgb COLOR_END = Ok (91, 191, 181)
  /\ row_color 16 15 = Ok (92, 192, 182)
  /\ map (fun s => row_color s (s - 1)) [32; 180; 192; 512]
     = [Ok (91, 191, 181); Ok (91, 191, 181); Ok (91, 191, 181); Ok (91, 191, 181)]
  /\ forallb (fun s => match truediv (s - 1) s with
                       | Ok factor => SFltb factor one
                       | Raise _ => false
                       end) [16; 32; 180; 192; 512] = true
  /\ (size <= 2 ^ 53 ->
      forall y, 0 <= y < size ->
                exists factor,
                  truediv y size = Ok factor
                  /\ strictly_below_one factor
                  /\ SFltb factor one = true)
  /\ truediv (2 ^ 54 - 1) (2 ^ 54) = Ok one.
Proof.
  intros Hs. split; [ | split; [ | split ] ].
  - intros y Hy. apply range_bounds in Hy. lia.
  - destruct (gradient_background size Hs) as (img & Eimg & Hw & Hh & Hpix).
    exists img. split; [ exact Eimg | ]. split.
    + intros x Hx. apply Hpix; [ lia | lia | apply row_color_top, Hs ].
    + intros x Hx.
      destruct (row_color_ok size Hs (size - 1)) as (f & r & g & b & Ef & Ec & Erow);
        [ lia | ].
      exists f, r, g, b. split; [ exact Ef | ]. split; [ exact Ec | ].
      apply Hpix; [ lia | lia | exact Erow ].
  - intros Hle. apply bottom_row_end_color. lia.
  - do 5 (split; [ vm_compute; reflexivity | ]).
    split; [ | vm_compute; reflexivity ].
    intros Hle y Hy. apply truediv_below_one; assumption.
Qed.

Lemma gradient_bottom_row_witness :
  exists img : Image RGBA,
    create_gradient_background 16 = Ok img
    /\ getpixel img 0 0 = Some (112, 209, 199, 255)
    /\ row_color 16 15 = Ok (92, 192, 182)
    /\ exists factor, truediv 15 16 = Ok factor /\ SFltb factor one = true.
Proof.
  destruct (gradient_bottom_row 16) as
    (_ & (img & Eimg & Htop & _) & _ & _ & _ & Hrow & _ & _ & Hbelow & _); [ lia | ].
  exists img. split; [ exact Eimg | ]. split; [ apply Htop; lia | ].
  split; [ exact Hrow | ].
  destruct (Hbelow ltac:(lia) 15 ltac:(lia)) as (factor & Ef & _ & Hlt).
  exists factor. split; [ exact Ef | exact Hlt ].
Defined.

(** C10, as stated, fails: for the 32-pixel icon the bottom row is
    painted with COLOR_END exactly. *)
Lemma gradient_bottom_row_is_end_color :
  exists img : Image RGBA,
    create_gradient_background 32 = Ok img
    /\ getpixel img 0 31 = Some (91, 191, 181, 255)
    /\ hex_to_rgb COLOR_END = Ok (91, 191, 181).
Proof.
  destruct (gradient_background 32) as (img & Eimg & _ & _ & Hpix); [ lia | ].
  exists img. split; [ exact Eimg | ]. split; [ | reflexivity ].
  apply Hpix; [ lia | lia | vm_compute; reflexivity ].
Qed.

(** ** Font size and corner radius *)

Section Scaling.

(** The two literals are canonical doubles, and their mantissas are
    the integers nearest to [0.45 * 2^54] and [0.2 * 2^55]. *)
Lemma literals_nearest :
  valid_binary prec emax lit_0_45 = true
  /\ valid_binary prec emax lit_0_2 = true
  /\ dyadic lit_0_45 = (8106479329266893, 54)
  /\ dyadic lit_0_2 = (7205759403792794, 55)
  /\ nearest_int (45 * 2 ^ 54) 100 8106479329266893
  /\ nearest_int (2 * 2 ^ 55) 10 7205759403792794.
Proof.
  repeat split; try reflexivity; unfold nearest_int; lia.
Qed.

Lemma binary_round_aux_sign (s : bool) (m e : Z) (l : location) :
  is_negative (binary_round_aux prec emax s m e l) = true -> s = true.
Proof.
  unfold binary_round_aux.
  destruct (shr_fexp prec emax m e l) as [mrs1 e1].
  destruct (shr_fexp prec emax _ e1 loc_Exact) as [mrs2 e2].
  destruct (shr_m mrs2) as [ | p | p ]; cbn [is_negative]; try discriminate.
  destruct (e2 <=? emax - prec); cbn [is_negative]; [ | discriminate ].
  destruct s; auto.
Qed.

Lemma of_int_nonnegative (n : Z) (x : float) :
  0 <= n -> of_int n = Ok x -> is_negative x = false.
Proof.
  intros Hn. unfold of_int.
  destruct n as [ | p | p ]; [ | | lia ]; cbn [binary_normalize].
  - intros [= <-]. reflexivity.
  - unfold binary_round.
    destruct (shl_align p 0 _) as [mz ez].
    pose proof (binary_round_aux_sign false (Zpos mz) ez loc_Exact) as Hsign.
    destruct (binary_round_aux prec emax false (Zpos mz) ez loc_Exact) as [ | | | s m e ];
      try discriminate; intros [= <-]; try reflexivity.
    destruct s; [ | reflexivity ]. discriminate Hsign. reflexivity.
Qed.

(** The product of a positive int of moderate size and a positive
    float literal below 1 is finite and not negative, so that [int]
    gives its floor. *)
Lemma scaled_size_floor (size : Z) (m : positive) (e : Z) :
  0 < size < 2 ^ 900 -> below 0 (S754_finite false m e) = true ->
  exists v,
    int_mul size (S754_finite false m e) = Ok v
    /\ is_negative v = false
    /\ to_int v = Ok (floor v).
Proof.
  intros Hs Hlit.
  destruct (int_mul_below size 900 0 (S754_finite false m e)) as (v & Ev & Hv);
    try (unfold emin, prec, emax; lia); auto.
  exists v. split; [ exact Ev | ].
  assert (Hneg : is_negative v = false).
  { unfold int_mul in Ev.
    destruct (of_int size) as [ fs | ] eqn:Efs; cbn [bind] in Ev; [ | discriminate ].
    injection Ev as <-. apply of_int_nonnegative in Efs; [ | lia ].
    destruct fs as [ | | | s mf ef ]; try reflexivity.
    destruct s; [ discriminate Efs | ]. unfold mul. cbn [SFmul xorb].
    destruct (is_negative (binary_round_aux prec emax false (Zpos (mf * m)) (ef + e) loc_Exact))
      eqn:E; [ | reflexivity ].
    apply binary_round_aux_sign in E. discriminate E. }
  split; [ exact Hneg | ].
  rewrite to_int_truncate by (eapply below_is_finite; exact Hv).
  rewrite truncate_nonnegative by exact Hneg. reflexivity.
Qed.

End Scaling.

(** C6 (amended). For every positive size (below [2^900]),
    [draw_text] computes its target font size as [int(size * 0.45)]:
    the double product truncated, that is its floor, never rounded up.
    Up to size 4096 this is the integer quotient of [45 * size] by 100;
    for the five configured sizes it is 7, 14, 81, 86 and 230, each of
    them also the integer nearest to [0.45 * size]. *)
Theorem text_font_size_truncates :
  (forall size : Z,
      0 < size < 2 ^ 900 ->
      exists v : float,
        int_mul size lit_0_45 = Ok v
        /\ is_negative v = false
        /\ text_font_size size = Ok (floor v)
        /\ (size <= 4096 -> floor v = 45 * size / 100))
  /\ map text_font_size [16; 32; 180; 192; 512] = [Ok 7; Ok 14; Ok 81; Ok 86; Ok 230]
  /\ nearest_int (45 * 16) 100 7 /\ nearest_int (45 * 32) 100 14
  /\ nearest_int (45 * 180) 100 81 /\ nearest_int (45 * 192) 100 86
  /\ nearest_int (45 * 512) 100 230.
Proof.
  split.
  - intros size Hs.
    destruct (scaled_size_floor size 8106479329266893 (-54) Hs) as (v & Ev & Hneg & Hint);
      [ reflexivity | ].
    fold lit_0_45 in Ev. exists v. split; [ exact Ev | ]. split; [ exact Hneg | ].
    assert (Efs : text_font_size size = Ok (floor v)).
    { unfold text_font_size. rewrite Ev. cbn [bind]. exact Hint. }
    split; [ exact Efs | ].
    intros Hle.
    assert (Hall : forallb (fun s => (s =? 0) || returns (text_font_size s) (45 * s / 100))
                     (range 4097) = true) by (vm_compute; reflexivity).
    pose proof (forall_range 4097 _ Hall size ltac:(lia)) as H. cbv beta in H.
    destruct (Z.eqb_spec size 0); [ lia | ]. cbn [orb] in H.
    rewrite Efs in H. cbn [returns] in H. apply Z.eqb_eq in H. exact H.
  - split; [ vm_compute; reflexivity | ].
    unfold nearest_int. lia.
Qed.

Lemma text_font_size_truncates_witness :
  exists v : float,
    int_mul 4 lit_0_45 = Ok v /\ text_font_size 4 = Ok (floor v) /\ floor v = 1.
Proof.
  destruct text_font_size_truncates as (H & _).
  destruct (H 4) as (v & Ev & _ & Efs & Hq); [ lia | ].
  exists v. split; [ exact Ev | ]. split; [ exact Efs | ].
  rewrite Hq by lia. reflexivity.
Defined.

(** C6, as stated, fails: for size 4 the font size is 1, and the
    integer nearest to 0.45 * 4 = 1.8 is 2. *)
Lemma text_font_size_is_not_rounded :
  text_font_size 4 = Ok 1 /\ ~ nearest_int (45 * 4) 100 1 /\ nearest_int (45 * 4) 100 2.
Proof.
  split; [ vm_compute; reflexivity | ]. unfold nearest_int. lia.
Qed.

(** ** Rounded corners, text and the icon pipeline *)

Section Pipeline.

Lemma corner_mask_ok (size radius : Z) :
  0 <= size ->
  exists mask,
    corner_mask size radius = Ok mask
    /\ width mask = size
    /\ height mask = size
    /\ forall x y,
        pixel mask x y
        = if (0 <=? x) && (x <? size) && (0 <=? y) && (y <? size)
             && in_rounded_rectangle 0 0 size size radius x y
          then 255 else 0.
Proof.
  intros Hs. unfold corner_mask, Pillow.new, rounded_rectangle.
  destruct (Z.ltb_spec size 0); [ lia | ]. cbn [orb bind].
  eexists. split; [ reflexivity | ]. repeat split.
Qed.

(** [add_rounded_corners] keeps the three colour bands and replaces
    the alpha band by the mask, whatever the alpha was. *)
Lemma add_rounded_corners_ok (img : Image RGBA) (radius : Z) :
  0 <= width img -> height img = width img ->
  exists mask img',
    corner_mask (width img) radius = Ok mask
    /\ add_rounded_corners img radius = Ok img'
    /\ width img' = width img
    /\ height img' = height img
    /\ forall x y,
        pixel img' x y
        = (let '(r, g, b, _) := pixel img x y in (r, g, b, pixel mask x y)).
Proof.
  intros Hw Hh.
  destruct (corner_mask_ok (width img) radius Hw) as (mask & Em & Hmw & Hmh & Hpix).
  exists mask.
  assert (Eadd : add_rounded_corners img radius = putalpha img mask).
  { unfold add_rounded_corners. cbv zeta. unfold corner_mask in Em.
    destruct (Pillow.new (width img) (width img) 0) as [ m0 | ]; cbn [bind] in *;
      [ | discriminate ].
    rewrite Em. reflexivity. }
  rewrite Eadd. unfold putalpha. rewrite Hmw, Hmh, Hh, !Z.eqb_refl.
  cbn [andb]. eexists. split; [ exact Em | ]. split; [ reflexivity | ].
  repeat split.
Qed.

Lemma draw_text_ok (fonts : Fonts) (img : Image RGBA) (text : string) (size fs : Z) :
  text_font_size size = Ok fs ->
  exists img',
    draw_text fonts img text size = Ok img'
    /\ width img' = width img
    /\ height img' = height img.
Proof.
  intros Efs. unfold draw_text. rewrite Efs. cbn [bind].
  destruct (textbbox (select_font fonts fs) text) as [ [ [b0 b1] b2 ] b3 ].
  change (hex_to_rgb COLOR_TEXT) with (Ok (A := ColorRGB) (255, 255, 255)).
  cbn [bind]. eexists. repeat split.
Qed.

(** One icon, when the two scalings succeed. *)
Lemma generate_icon_ok (fonts : Fonts) (config : IconSpec) (output_dir : Path)
  (w : World) (radius fs : Z) :
  0 < size config ->
  corner_radius (size config) = Ok radius ->
  text_font_size (size config) = Ok fs ->
  exists img0 img1 img2,
    create_gradient_background (size config) = Ok img0
    /\ add_rounded_corners img0 radius = Ok img1
    /\ draw_text fonts img1 "TB" (size config) = Ok img2
    /\ width img2 = size config
    /\ height img2 = size config
    /\ generate_icon fonts config output_dir w
       = Ok (print (Generated (name config) (size config))
               (save img2 (joinpath output_dir (name config)) w)).
Proof.
  intros Hs Er Efs.
  destruct (gradient_background (size config) Hs) as (img0 & E0 & Hw0 & Hh0 & _).
  destruct (add_rounded_corners_ok img0 radius) as (mask & img1 & _ & E1 & Hw1 & Hh1 & _);
    [ lia | lia | ].
  destruct (draw_text_ok fonts img1 "TB" (size config) fs Efs) as (img2 & E2 & Hw2 & Hh2).
  exists img0, img1, img2.
  split; [ exact E0 | ]. split; [ exact E1 | ]. split; [ exact E2 | ].
  split; [ lia | ]. split; [ lia | ].
  unfold generate_icon. rewrite E0. cbn [bind]. rewrite Er. cbn [bind].
  rewrite E1. cbn [bind]. rewrite E2. reflexivity.
Qed.

End Pipeline.

(** C7 (amended). For every icon generated, the corner radius passed
    to [add_rounded_corners] is [int(size * 0.2)], the fifth of the
    size truncated to an integer: 3, 6, 36, 38 and 102 for the five
    sizes.  It is 0.2 times the size exactly only for the size 180. *)
Theorem corner_radius_is_truncated
  (fonts : Fonts) (config : IconSpec) (output_dir : Path) (w : World) :
  In config ICON_CONFIGS ->
  corner_radius (size config) = Ok (size config / 5)
  /\ (exists img0 img1 img2 : Image RGBA,
         create_gradient_background (size config) = Ok img0
         /\ add_rounded_corners img0 (size config / 5) = Ok img1
         /\ draw_text fonts img1 "TB" (size config) = Ok img2
         /\ generate_icon fonts config output_dir w
            = Ok (print (Generated (name config) (size config))
                    (save img2 (joinpath output_dir (name config)) w)))
  /\ map (fun c => corner_radius (size c)) ICON_CONFIGS
     = [Ok 3; Ok 6; Ok 36; Ok 38; Ok 102]
  /\ (5 * (size config / 5) = size config <-> size config = 180).
Proof.
  intros Hin.
  assert (Hcfg : 0 < size config
                 /\ corner_radius (size config) = Ok (size config / 5)
                 /\ (exists fs, text_font_size (size config) = Ok fs)
                 /\ (5 * (size config / 5) = size config <-> size config = 180)).
  { cbn [ICON_CONFIGS In] in Hin.
    destruct Hin as [ <- | [ <- | [ <- | [ <- | [ <- | [] ] ] ] ] ]; cbn [size];
      (split; [ lia | split; [ vm_compute; reflexivity | split;
         [ eexists; vm_compute; reflexivity | vm_compute; intuition congruence ] ] ]). }
  destruct Hcfg as (Hs & Er & (fs & Efs) & Hexact).
  split; [ exact Er | ]. split; [ | split; [ vm_compute; reflexivity | exact Hexact ] ].
  destruct (generate_icon_ok fonts config output_dir w _ _ Hs Er Efs)
    as (img0 & img1 & img2 & E0 & E1 & E2 & _ & _ & Egen).
  exists img0, img1, img2. auto.
Qed.

Lemma corner_radius_is_truncated_witness :
  corner_radius 16 = Ok 3
  /\ exists img0 img1 : Image RGBA,
      create_gradient_background 16 = Ok img0
      /\ add_rounded_corners img0 3 = Ok img1.
Proof.
  destruct (corner_radius_is_truncated no_fonts
              {| size := 16; name := "favicon-16.png" |} [] empty_world)
    as (Hr & (img0 & img1 & img2 & E0 & E1 & _) & _).
  - cbn. auto.
  - split; [ exact Hr | ]. exists img0, img1. split; [ exact E0 | exact E1 ].
Defined.

(** C7, as stated, fails: for the 16-pixel icon the radius is 3, and
    0.2 * 16 is 16/5, which is no integer. *)
Lemma corner_radius_is_not_a_fifth :
  In {| size := 16; name := "favicon-16.png" |} ICON_CONFIGS
  /\ corner_radius 16 = Ok 3
  /\ 5 * 3 <> 16.
Proof.
  split; [ cbn; auto | ]. split; [ vm_compute; reflexivity | lia ].
Qed.

(** ** The corner mask *)

Section CornerMask.

Variables size radius : Z.
Hypothesis radius_range : 0 < radius <= size / 2.

Lemma clamp_radius_id : clamp_radius 0 0 size size radius = radius.
Proof. unfold clamp_radius. rewrite !Z.sub_0_r. lia. Qed.

Lemma size_ge_2 : 2 * radius <= size.
Proof. pose proof (Z.mul_div_le size 2). lia. Qed.

Lemma mask_value (x y : Z) :
  0 <= x < size -> 0 <= y < size ->
  exists mask,
    corner_mask size radius = Ok mask
    /\ getpixel mask x y
       = Some (if in_rounded_rectangle 0 0 size size radius x y then 255 else 0).
Proof.
  intros Hx Hy.
  destruct (corner_mask_ok size radius) as (mask & Em & Hw & Hh & Hpix); [ lia | ].
  exists mask. split; [ exact Em | ].
  unfold getpixel, inside. rewrite Hw, Hh, Hpix.
  destruct (Z.leb_spec 0 x), (Z.ltb_spec x size), (Z.leb_spec 0 y), (Z.ltb_spec y size);
    try lia. reflexivity.
Qed.

(** The top-left corner pixel is outside the rounded rectangle. *)
Lemma top_left_outside : in_rounded_rectangle 0 0 size size radius 0 0 = false.
Proof.
  pose proof size_ge_2. unfold in_rounded_rectangle. rewrite clamp_radius_id.
  rewrite !Z.add_0_l.
  replace (Z.max radius (Z.min 0 (size - radius))) with radius by lia.
  apply andb_false_intro2. apply Z.leb_gt. nia.
Qed.

(** The centre pixel is inside. *)
Lemma centre_inside :
  in_rounded_rectangle 0 0 size size radius (size / 2) (size / 2) = true.
Proof.
  pose proof size_ge_2. pose proof (Z.mul_div_le size 2 ltac:(lia)).
  unfold in_rounded_rectangle. rewrite clamp_radius_id. rewrite !Z.add_0_l.
  replace (Z.max radius (Z.min (size / 2) (size - radius))) with (size / 2) by lia.
  rewrite Z.sub_diag.
  repeat (apply andb_true_intro; split); try apply Z.leb_le; nia.
Qed.

(** The bottom-right corner pixel is one pixel inside the box
    [(0, 0) .. (size, size)]: it is outside the rounded rectangle
    only from radius 4 on. *)
Lemma bottom_right_inside_iff :
  in_rounded_rectangle 0 0 size size radius (size - 1) (size - 1) = (radius <=? 3).
Proof.
  pose proof size_ge_2. unfold in_rounded_rectangle. rewrite clamp_radius_id.
  rewrite !Z.add_0_l.
  replace (Z.max radius (Z.min (size - 1) (size - radius))) with (size - radius) by lia.
  replace (size - 1 - (size - radius)) with (radius - 1) by lia.
  destruct (Z.leb_spec radius 3) as [Hle | Hgt].
  - repeat (apply andb_true_intro; split); try apply Z.leb_le; try lia.
    assert (radius = 1 \/ radius = 2 \/ radius = 3) as [ -> | [ -> | -> ] ] by lia; lia.
  - apply andb_false_intro2. apply Z.leb_gt. nia.
Qed.

(** The top-right and bottom-left corner pixels are outside it from
    radius 2 on. *)
Lemma top_right_inside_iff :
  in_rounded_rectangle 0 0 size size radius (size - 1) 0 = (radius <=? 1).
Proof.
  pose proof size_ge_2. unfold in_rounded_rectangle. rewrite clamp_radius_id.
  rewrite !Z.add_0_l.
  replace (Z.max radius (Z.min (size - 1) (size - radius))) with (size - radius) by lia.
  replace (Z.max radius (Z.min 0 (size - radius))) with radius by lia.
  replace (size - 1 - (size - radius)) with (radius - 1) by lia.
  destruct (Z.leb_spec radius 1) as [Hle | Hgt].
  - assert (radius = 1) as -> by lia.
    repeat (apply andb_true_intro; split); try apply Z.leb_le; lia.
  - apply andb_false_intro2. apply Z.leb_gt. nia.
Qed.

Lemma bottom_left_inside_iff :
  in_rounded_rectangle 0 0 size size radius 0 (size - 1) = (radius <=? 1).
Proof.
  pose proof size_ge_2. unfold in_rounded_rectangle. rewrite clamp_radius_id.
  rewrite !Z.add_0_l.
  replace (Z.max radius (Z.min (size - 1) (size - radius))) with (size - radius) by lia.
  replace (Z.max radius (Z.min 0 (size - radius))) with radius by lia.
  replace (size - 1 - (size - radius)) with (radius - 1) by lia.
  destruct (Z.leb_spec radius 1) as [Hle | Hgt].
  - assert (radius = 1) as -> by lia.
    repeat (apply andb_true_intro; split); try apply Z.leb_le; lia.
  - apply andb_false_intro2. apply Z.leb_gt. nia.
Qed.

End CornerMask.

(** The alpha band after [add_rounded_corners], for a square canvas
    and a radius of at most half its side: whatever the alpha was, it
    is 0 at the top-left corner and 255 at the centre; at the
    bottom-right corner it is 0 from radius 4 on only, and at the two
    other corners from radius 2 on only. *)
Lemma add_rounded_corners_alpha (img : Image RGBA) (radius : Z) :
  height img = width img -> 0 < radius <= width img / 2 ->
  exists img',
    add_rounded_corners img radius = Ok img'
    /\ (forall x y,
           0 <= x < width img -> 0 <= y < width img ->
           getpixel img' x y
           = Some (let '(r, g, b, _) := pixel img x y in
                   (r, g, b,
                    if in_rounded_rectangle 0 0 (width img) (width img) radius x y
                    then 255 else 0)))
    /\ in_rounded_rectangle 0 0 (width img) (width img) radius 0 0 = false
    /\ in_rounded_rectangle 0 0 (width img) (width img) radius
         (width img / 2) (width img / 2) = true
    /\ in_rounded_rectangle 0 0 (width img) (width img) radius
         (width img - 1) (width img - 1) = (radius <=? 3)
    /\ in_rounded_rectangle 0 0 (width img) (width img) radius (width img - 1) 0
       = (radius <=? 1)
    /\ in_rounded_rectangle 0 0 (width img) (width img) radius 0 (width img - 1)
       = (radius <=? 1).
Proof.
  intros Hh Hr.
  assert (Hw : 0 <= width img).
  { destruct (Z_lt_le_dec (width img) 0) as [Hneg | ]; [ | lia ].
    pose proof (Z.div_lt_upper_bound (width img) 2 0). lia. }
  destruct (add_rounded_corners_ok img radius Hw Hh)
    as (mask & img' & Em & E & Hw' & Hh' & Hpix).
  destruct (corner_mask_ok (width img) radius Hw) as (mask' & Em' & _ & _ & Hmpix).
  assert (mask' = mask) by congruence. subst mask'.
  exists img'. split; [ exact E | ]. split.
  - intros x y Hx Hy. unfold getpixel, inside. rewrite Hw', Hh', Hh.
    destruct (Z.leb_spec 0 x), (Z.ltb_spec x (width img)),
      (Z.leb_spec 0 y), (Z.ltb_spec y (width img)); try lia.
    cbn [andb]. rewrite Hpix, Hmpix.
    destruct (Z.leb_spec 0 x), (Z.ltb_spec x (width img)),
      (Z.leb_spec 0 y), (Z.ltb_spec y (width img)); try lia.
    reflexivity.
  - split; [ apply top_left_outside, Hr | ].
    split; [ apply centre_inside, Hr | ].
    split; [ apply bottom_right_inside_iff, Hr | ].
    split; [ apply top_right_inside_iff, Hr | apply bottom_left_inside_iff, Hr ].
Qed.

(** C3, at the 16-pixel icon.  The mask is drawn to the corner
    [(size, size)], one pixel beyond the canvas, so with radius 3 the
    bottom-right pixel of the canvas lies inside the rounded rectangle:
    its alpha is 255, while the three other corner pixels have alpha 0
    and the centre 255. *)
Theorem rounded_corners_bottom_right_opaque :
  exists (img0 img1 : Image RGBA) (mask : Image Z),
    create_gradient_background 16 = Ok img0
    /\ corner_radius 16 = Ok 3
    /\ corner_mask 16 3 = Ok mask
    /\ add_rounded_corners img0 3 = Ok img1
    /\ getpixel mask 0 0 = Some 0
    /\ getpixel mask 15 0 = Some 0
    /\ getpixel mask 0 15 = Some 0
    /\ getpixel mask 8 8 = Some 255
    /\ getpixel mask 15 15 = Some 255
    /\ getpixel img1 0 0 = Some (112, 209, 199, 0)
    /\ getpixel img1 15 15 = Some (92, 192, 182, 255).
Proof.
  destruct (gradient_background 16) as (img0 & E0 & Hw0 & Hh0 & Hpix0); [ lia | ].
  destruct (add_rounded_corners_ok img0 3) as (mask & img1 & Em & E1 & Hw1 & Hh1 & Hpix1);
    [ lia | lia | ].
  rewrite Hw0 in Em.
  destruct (corner_mask_ok 16 3) as (mask' & Em' & Hmw & Hmh & Hmpix); [ lia | ].
  assert (mask' = mask) by congruence. subst mask'.
  assert (Hm : forall x y, 0 <= x < 16 -> 0 <= y < 16 ->
                           getpixel mask x y
                           = Some (if in_rounded_rectangle 0 0 16 16 3 x y then 255 else 0)).
  { intros x y Hx Hy. unfold getpixel, inside. rewrite Hmw, Hmh, Hmpix.
    destruct (Z.leb_spec 0 x), (Z.ltb_spec x 16), (Z.leb_spec 0 y), (Z.ltb_spec y 16);
      try lia. reflexivity. }
  assert (Hi : forall x y r g b, 0 <= x < 16 -> 0 <= y < 16 ->
                                 row_color 16 y = Ok (r, g, b) ->
                                 getpixel img1 x y
                                 = Some (r, g, b,
                                         if in_rounded_rectangle 0 0 16 16 3 x y
                                         then 255 else 0)).
  { intros x y r g b Hx Hy Hrow.
    pose proof (Hpix0 x y r g b Hx Hy Hrow) as H0. pose proof (Hm x y Hx Hy) as H1.
    unfold getpixel, inside in *. rewrite Hw1, Hh1. rewrite Hmw, Hmh in H1.
    rewrite Hw0, Hh0 in *.
    destruct ((0 <=? x) && (x <? 16) && (0 <=? y) && (y <? 16)); [ | discriminate ].
    rewrite Hpix1. injection H0 as ->. injection H1 as ->. reflexivity. }
  exists img0, img1, mask.
  split; [ exact E0 | ]. split; [ vm_compute; reflexivity | ].
  split; [ exact Em | ]. split; [ exact E1 | ].
  repeat split; try (rewrite Hm by lia; reflexivity).
  - rewrite (Hi 0 0 112 209 199) by (try lia; vm_compute; reflexivity). reflexivity.
  - rewrite (Hi 15 15 92 192 182) by (try lia; vm_compute; reflexivity). reflexivity.
Qed.

(** ** A run of [main] *)

Lemma world_ext (a : World) (ds : gset Path) (fs : gmap Path (Image RGBA))
  (out : list Line) :
  dirs a = ds -> files a = fs -> stdout a = out ->
  a = {| dirs := ds; files := fs; stdout := out |}.
Proof. destruct a as [ds0 fs0 out0]. cbn [dirs files stdout]. congruence. Qed.

Section Run.

Variable fonts : Fonts.
Variable output_dir : Path.

(** A batch of icons: when the scalings succeed for every
    configuration, every icon is generated, in order. *)
Lemma generate_all (configs : list IconSpec) (w : World) :
  Forall (fun config => 0 < size config
                        /\ is_ok (corner_radius (size config)) = true
                        /\ is_ok (text_font_size (size config)) = true) configs ->
  exists imgs : list (Image RGBA),
    Forall2 (fun config img => width img = size config /\ height img = size config)
      configs imgs
    /\ for_each (fun w config => generate_icon fonts config output_dir w) configs w
       = Ok (fold_left (written output_dir) (combine configs imgs) w).
Proof.
  intros Hall. revert w. induction Hall as [ | config configs (Hs & Hr & Hf) _ IH ];
    intros w.
  - exists []. split; [ constructor | reflexivity ].
  - destruct (corner_radius (size config)) as [ radius | ] eqn:Er; [ | discriminate ].
    destruct (text_font_size (size config)) as [ fs | ] eqn:Ef; [ | discriminate ].
    destruct (generate_icon_ok fonts config output_dir w radius fs Hs Er Ef)
      as (_ & _ & img & _ & _ & _ & Hw & Hh & Egen).
    destruct (IH (written output_dir w (config, img))) as (imgs & Hdims & Efor).
    exists (img :: imgs). split; [ constructor; auto | ].
    cbn [for_each]. rewrite Egen. cbn [bind combine fold_left]. exact Efor.
Qed.

End Run.

Lemma icon_configs_scale :
  Forall (fun config => 0 < size config
                        /\ is_ok (corner_radius (size config)) = true
                        /\ is_ok (text_font_size (size config)) = true) ICON_CONFIGS.
Proof.
  unfold ICON_CONFIGS.
  repeat constructor; cbn [size]; try lia; vm_compute; reflexivity.
Qed.

(** The world after a run: the five images are written in the order
    of [ICON_CONFIGS], nothing else is written, and the lines are
    printed in order. *)
Lemma main_run (fonts : Fonts) (script_dir : Path) (w : World) :
  exists i16 i32 i180 i192 i512 : Image RGBA,
    main fonts script_dir w
    = Ok (final_world (icons_dir script_dir) w i16 i32 i180 i192 i512)
    /\ (width i16 = 16 /\ height i16 = 16)
    /\ (width i32 = 32 /\ height i32 = 32)
    /\ (width i180 = 180 /\ height i180 = 180)
    /\ (width i192 = 192 /\ height i192 = 192)
    /\ (width i512 = 512 /\ height i512 = 512).
Proof.
  set (d := icons_dir script_dir).
  set (w0 := print Generating (print (IconsDirectory d) (mkdir d w))).
  destruct (generate_all fonts d ICON_CONFIGS w0 icon_configs_scale)
    as (imgs & Hdims & Efor).
  unfold ICON_CONFIGS in Hdims.
  inversion Hdims as [ | c1 i16 l1 l1' H16 Hd1 ]; subst; clear Hdims.
  inversion Hd1 as [ | c2 i32 l2 l2' H32 Hd2 ]; subst; clear Hd1.
  inversion Hd2 as [ | c3 i180 l3 l3' H180 Hd3 ]; subst; clear Hd2.
  inversion Hd3 as [ | c4 i192 l4 l4' H192 Hd4 ]; subst; clear Hd3.
  inversion Hd4 as [ | c5 i512 l5 l5' H512 Hd5 ]; subst; clear Hd4.
  inversion Hd5; subst; clear Hd5.
  exists i16, i32, i180, i192, i512. cbn [size] in *.
  split; [ | repeat split; tauto ].
  unfold main. cbv zeta. fold (icons_dir script_dir). fold d. fold w0.
  rewrite Efor. cbn [bind]. f_equal.
  unfold final_world. fold d. apply world_ext.
  - unfold w0, ICON_CONFIGS. cbn [combine fold_left written print save mkdir dirs].
    reflexivity.
  - unfold w0, ICON_CONFIGS.
    cbn [combine fold_left written print save mkdir files name size]. reflexivity.
  - unfold w0, ICON_CONFIGS.
    cbn [combine fold_left written print save mkdir stdout name size].
    rewrite <- !app_assoc. reflexivity.
Qed.

Lemma joinpath_inj (p : Path) (a b : string) : joinpath p a = joinpath p b -> a = b.
Proof. unfold joinpath. intros H. apply app_inv_head in H. congruence. Qed.

Lemma final_world_files (d : Path) (w : World) (i16 i32 i180 i192 i512 : Image RGBA) :
  let w' := final_world d w i16 i32 i180 i192 i512 in
  files w' !! joinpath d "favicon-16.png" = Some i16
  /\ files w' !! joinpath d "favicon-32.png" = Some i32
  /\ files w' !! joinpath d "apple-touch-icon.png" = Some i180
  /\ files w' !! joinpath d "icon-192.png" = Some i192
  /\ files w' !! joinpath d "icon-512.png" = Some i512.
Proof.
  cbn zeta. unfold final_world. cbn [files].
  repeat split;
    repeat (rewrite lookup_insert_ne
             by (intros H; apply joinpath_inj in H; discriminate H));
    apply lookup_insert_eq.
Qed.

(** C1. Every run of [main] processes exactly the five fixed
    configurations, in order: it ends normally, and the images it
    writes are those of [favicon-16.png], [favicon-32.png],
    [apple-touch-icon.png], [icon-192.png] and [icon-512.png] in the
    icons directory, of 16, 32, 180, 192 and 512 pixels in width and
    in height; no other file is written and one line is printed per
    icon. *)
Theorem main_generates_five_icons (fonts : Fonts) (script_dir : Path) (w : World) :
  map (fun config => (size config, name config)) ICON_CONFIGS
  = [ (16, "favicon-16.png"); (32, "favicon-32.png"); (180, "apple-touch-icon.png");
      (192, "icon-192.png"); (512, "icon-512.png") ]%string
  /\ exists i16 i32 i180 i192 i512 : Image RGBA,
      let d := icons_dir script_dir in
      let w' := final_world d w i16 i32 i180 i192 i512 in
      main fonts script_dir w = Ok w'
      /\ files w' !! joinpath d "favicon-16.png" = Some i16
      /\ files w' !! joinpath d "favicon-32.png" = Some i32
      /\ files w' !! joinpath d "apple-touch-icon.png" = Some i180
      /\ files w' !! joinpath d "icon-192.png" = Some i192
      /\ files w' !! joinpath d "icon-512.png" = Some i512
      /\ (width i16 = 16 /\ height i16 = 16)
      /\ (width i32 = 32 /\ height i32 = 32)
      /\ (width i180 = 180 /\ height i180 = 180)
      /\ (width i192 = 192 /\ height i192 = 192)
      /\ (width i512 = 512 /\ height i512 = 512).
Proof.
  split; [ reflexivity | ].
  destruct (main_run fonts script_dir w) as (i16 & i32 & i180 & i192 & i512 & Emain & Hdims).
  exists i16, i32, i180, i192, i512. cbn zeta.
  split; [ exact Emain | ].
  pose proof (final_world_files (icons_dir script_dir) w i16 i32 i180 i192 i512) as Hf.
  cbn zeta in Hf. tauto.
Qed.

(** C9. Whatever the three attempts to load a system font give, a
    font or any exception, [draw_text] draws the text with the first
    font that loads, in the order macOS, Linux, Windows, and with the
    built-in default font when none does; the failure of a load is
    never raised.  So for every state of the fonts and every size from
    1 to below [2^900], [draw_text] succeeds, and [main] ends normally
    with an image of the right dimensions written for every
    configuration, also when no system font is found.  The default
    font and the measurement of a text are taken as always
    available. *)
Theorem font_fallback_never_fails (fonts : Fonts) :
  (forall n : Z, fallback_font fonts n (select_font fonts n))
  /\ (forall (img : Image RGBA) (text : string) (size : Z),
         0 < size < 2 ^ 900 ->
         exists (font_size : Z) (font : Font) (x y : Z),
           text_font_size size = Ok font_size
           /\ fallback_font fonts font_size font
           /\ draw_text fonts img text size
              = Ok (draw_text_at img x y text (255, 255, 255) font))
  /\ ((forall (path : string) (n : Z), fails fonts path n) ->
      forall (img : Image RGBA) (text : string) (size : Z),
        0 < size < 2 ^ 900 ->
        exists x y : Z,
          draw_text fonts img text size
          = Ok (draw_text_at img x y text (255, 255, 255) (load_default fonts)))
  /\ (forall (img : Image RGBA) (text : string),
         Forall (fun config =>
                   exists img',
                     draw_text fonts img text (size config) = Ok img'
                     /\ width img' = width img
                     /\ height img' = height img) ICON_CONFIGS)
  /\ (forall (script_dir : Path) (w : World),
         exists w',
           main fonts script_dir w = Ok w'
           /\ Forall (fun config =>
                        exists img,
                          files w' !! joinpath (icons_dir script_dir) (name config)
                          = Some img
                          /\ width img = size config
                          /\ height img = size config) ICON_CONFIGS).
Proof.
  assert (Hsel : forall n : Z, fallback_font fonts n (select_font fonts n)).
  { intros n. unfold select_font, fallback_font, fails.
    destruct (truetype fonts FONT_MACOS n) as [ f1 | e1 ]; [ left; reflexivity | ].
    destruct (truetype fonts FONT_LINUX n) as [ f2 | e2 ]; [ right; left; eauto | ].
    destruct (truetype fonts FONT_WINDOWS n) as [ f3 | e3 ];
      [ right; right; left; eauto | ].
    right. right. right. eauto 7. }
  assert (Hdraw : forall (img : Image RGBA) (text : string) (size : Z),
             0 < size < 2 ^ 900 ->
             exists (font_size x y : Z),
               text_font_size size = Ok font_size
               /\ draw_text fonts img text size
                  = Ok (draw_text_at img x y text (255, 255, 255)
                          (select_font fonts font_size))).
  { intros img text size Hs.
    destruct (scaled_size_floor size 8106479329266893 (-54) Hs) as (v & Ev & _ & Hint);
      [ reflexivity | ].
    fold lit_0_45 in Ev.
    assert (Efs : text_font_size size = Ok (floor v)).
    { unfold text_font_size. rewrite Ev. cbn [bind]. exact Hint. }
    exists (floor v). unfold draw_text. rewrite Efs. cbn [bind].
    destruct (textbbox (select_font fonts (floor v)) text) as [ [ [b0 b1] b2 ] b3 ].
    change (hex_to_rgb COLOR_TEXT) with (Ok (A := ColorRGB) (255, 255, 255)).
    cbn [bind]. eexists _, _. split; reflexivity. }
  split; [ exact Hsel | ]. split; [ | split; [ | split ] ].
  - intros img text size Hs.
    destruct (Hdraw img text size Hs) as (font_size & x & y & Efs & Edraw).
    exists font_size, (select_font fonts font_size), x, y.
    split; [ exact Efs | ]. split; [ apply Hsel | exact Edraw ].
  - intros Hnone img text size Hs.
    destruct (Hdraw img text size Hs) as (font_size & x & y & Efs & Edraw).
    exists x, y. rewrite Edraw. do 2 f_equal. unfold select_font.
    destruct (Hnone FONT_MACOS font_size) as [e1 ->].
    destruct (Hnone FONT_LINUX font_size) as [e2 ->].
    destruct (Hnone FONT_WINDOWS font_size) as [e3 ->].
    reflexivity.
  - intros img text. unfold ICON_CONFIGS.
    repeat constructor; cbn [size];
      eapply draw_text_ok; vm_compute; reflexivity.
  - intros script_dir w.
    destruct (main_run fonts script_dir w)
      as (i16 & i32 & i180 & i192 & i512 & Emain & H16 & H32 & H180 & H192 & H512).
    eexists. split; [ exact Emain | ].
    destruct (final_world_files (icons_dir script_dir) w i16 i32 i180 i192 i512)
      as (F16 & F32 & F180 & F192 & F512).
    unfold ICON_CONFIGS. repeat constructor; cbn [size name]; eexists; eauto.
Qed.

Lemma font_fallback_never_fails_witness :
  let canvas := {| width := 16; height := 16; pixel := fun _ _ => (0, 0, 0, 0) |} in
  (exists (font_size : Z) (font : Font) (x y : Z),
      text_font_size 16 = Ok font_size
      /\ fallback_font no_fonts font_size font
      /\ draw_text no_fonts canvas "TB" 16
         = Ok (draw_text_at canvas x y "TB" (255, 255, 255) font))
  /\ exists x y : Z,
      draw_text no_fonts canvas "TB" 16
      = Ok (draw_text_at canvas x y "TB" (255, 255, 255) plain_font).
Proof.
  intros canvas.
  destruct (font_fallback_never_fails no_fonts) as (_ & Hdraw & Hnone & _).
  split.
  - apply Hdraw. lia.
  - apply Hnone; [ | lia ].
    intros path n. exists OSError. reflexivity.
Defined.

(** * Further properties *)

(** ** Integer bounds through binary64 rounding

    Rounding to a grid that contains the integers cannot cross an
    integer: a value between two integers below [2^53] is rounded to a
    float between them. *)

Section RoundBetween.

Variables lo hi : Z.
Hypothesis lo_nonneg : 0 <= lo.
Hypothesis hi_small : hi < 2 ^ 53.

Lemma digits_from_bound (m e : Z) :
  0 <= m -> e <= 0 -> m <= hi * 2 ^ (- e) -> Zdigits2 m + e <= 53.
Proof.
  intros Hm He Hhi.
  assert (Hpos : 0 < 2 ^ (- e)) by (apply Z.pow_pos_nonneg; lia).
  enough (Zdigits2 m <= 53 + - e) by lia.
  apply Zdigits2_le_iff; [ lia | lia | ].
  rewrite Z.pow_add_r by lia. nia.
Qed.

Lemma fexp_nonpos (d : Z) : d <= 53 -> fexp prec emax d <= 0.
Proof. unfold fexp, emin, prec, emax. lia. Qed.

(** The first alignment and the rounding of the mantissa. *)
Lemma round_step (m e : Z) (l : location) :
  0 <= m -> e <= 0 ->
  lo * 2 ^ (- e) <= m ->
  m < hi * 2 ^ (- e) \/ (l = loc_Exact /\ m <= hi * 2 ^ (- e)) ->
  let '(mrs1, e1) := shr_fexp prec emax m e l in
  let m2 := round_nearest_even (shr_m mrs1) (loc_of_shr_record mrs1) in
  e1 <= 0 /\ lo * 2 ^ (- e1) <= m2 <= hi * 2 ^ (- e1).
Proof.
  intros Hm He Hlo Hhi.
  assert (Hle : m <= hi * 2 ^ (- e)) by (destruct Hhi as [ | [_ ?] ]; lia).
  pose proof (digits_from_bound m e Hm He Hle) as Hd.
  pose proof (fexp_nonpos _ Hd) as Hf.
  unfold shr_fexp.
  pose proof (shr_spec (shr_record_of_loc m l) e
                (fexp prec emax (Zdigits2 m + e) - e)) as Hs.
  rewrite shr_record_of_loc_m in Hs. specialize (Hs Hm).
  set (n := fexp prec emax (Zdigits2 m + e) - e) in *.
  destruct (shr (shr_record_of_loc m l) e n) as [mrs1 e1] eqn:Eshr.
  destruct Hs as [ (Hn & Hm1 & He1) | (Hn & Hm1 & He1) ].
  - assert (He1' : e1 <= 0) by (unfold n in *; lia).
    assert (Hp1 : 0 < 2 ^ (- e1)) by (apply Z.pow_pos_nonneg; lia).
    assert (Hpn : 0 < 2 ^ n) by (apply Z.pow_pos_nonneg; lia).
    assert (Hsplit : 2 ^ (- e) = 2 ^ (- e1) * 2 ^ n).
    { rewrite <- Z.pow_add_r by lia. f_equal. lia. }
    rewrite Hsplit in *.
    pose proof (round_nearest_even_bounds (shr_m mrs1) (loc_of_shr_record mrs1)) as Hr.
    assert (Hlow : lo * 2 ^ (- e1) <= shr_m mrs1).
    { rewrite Hm1. apply Z.div_le_lower_bound; [ lia | nia ]. }
    split; [ exact He1' | ]. split; [ lia | ].
    destruct (Z_lt_le_dec m (hi * 2 ^ (- e1) * 2 ^ n)) as [Hlt | Hge].
    + assert (shr_m mrs1 < hi * 2 ^ (- e1)).
      { rewrite Hm1. apply Z.div_lt_upper_bound; [ lia | nia ]. }
      lia.
    + destruct Hhi as [ Hstrict | [-> Hle'] ]; [ lia | ].
      assert (Em : m = hi * 2 ^ (- e1) * 2 ^ n) by lia.
      assert (Hex : shr_r mrs1 = false /\ shr_s mrs1 = false).
      { unfold shr in Eshr. destruct n as [ | p | p ] eqn:En; try lia.
        injection Eshr as <- _.
        apply iter_shr_1_exact; cbn [shr_record_of_loc shr_m shr_r shr_s]; auto.
        exists (hi * 2 ^ (- e1)). exact Em. }
      destruct Hex as [Hr0 Hs0].
      rewrite (loc_of_shr_record_exact mrs1 Hr0 Hs0). cbn [round_nearest_even].
      rewrite Hm1, Em. rewrite Z.div_mul by lia. lia.
  - subst mrs1 e1. rewrite shr_record_of_loc_m, loc_of_shr_record_of_loc.
    pose proof (round_nearest_even_bounds m l) as Hr.
    split; [ exact He | ]. split; [ lia | ].
    destruct Hhi as [ Hstrict | [-> Hle'] ]; [ lia | ].
    cbn [round_nearest_even]. exact Hle'.
Qed.

(** The second alignment, which truncates. *)
Lemma truncate_step (m e : Z) :
  0 <= m -> e <= 0 ->
  lo * 2 ^ (- e) <= m <= hi * 2 ^ (- e) ->
  let '(mrs3, e3) := shr_fexp prec emax m e loc_Exact in
  e3 <= 0 /\ lo * 2 ^ (- e3) <= shr_m mrs3 <= hi * 2 ^ (- e3).
Proof.
  intros Hm He [Hlo Hhi].
  pose proof (digits_from_bound m e Hm He Hhi) as Hd.
  pose proof (fexp_nonpos _ Hd) as Hf.
  unfold shr_fexp.
  pose proof (shr_spec (shr_record_of_loc m loc_Exact) e
                (fexp prec emax (Zdigits2 m + e) - e)) as Hs.
  rewrite shr_record_of_loc_m in Hs. specialize (Hs Hm).
  set (n := fexp prec emax (Zdigits2 m + e) - e) in *.
  destruct (shr (shr_record_of_loc m loc_Exact) e n) as [mrs3 e3].
  destruct Hs as [ (Hn & Hm3 & He3) | (Hn & Hm3 & He3) ].
  - assert (He3' : e3 <= 0) by (unfold n in *; lia).
    assert (Hp3 : 0 < 2 ^ (- e3)) by (apply Z.pow_pos_nonneg; lia).
    assert (Hpn : 0 < 2 ^ n) by (apply Z.pow_pos_nonneg; lia).
    assert (Hsplit : 2 ^ (- e) = 2 ^ (- e3) * 2 ^ n).
    { rewrite <- Z.pow_add_r by lia. f_equal. lia. }
    rewrite Hsplit in *. split; [ exact He3' | ]. rewrite Hm3. split.
    + apply Z.div_le_lower_bound; [ lia | nia ].
    + apply Z.div_le_upper_bound; [ lia | nia ].
  - subst mrs3 e3. cbn [shr_record_of_loc shr_m]. auto.
Qed.

(** Rounding a value that lies between two integers, the upper one
    below [2^53]: the result lies between them.  The value is the
    mantissa with its exponent when the location is exact, and lies
    above it by less than one unit otherwise. *)
Lemma round_between (s : bool) (m e : Z) (l : location) :
  0 <= m -> e <= 0 ->
  lo * 2 ^ (- e) <= m ->
  m < hi * 2 ^ (- e) \/ (l = loc_Exact /\ m <= hi * 2 ^ (- e)) ->
  signed_between s lo hi (binary_round_aux prec emax s m e l).
Proof.
  intros Hm He Hlo Hhi. unfold binary_round_aux.
  pose proof (round_step m e l Hm He Hlo Hhi) as H1.
  destruct (shr_fexp prec emax m e l) as [mrs1 e1]. cbv zeta in H1.
  set (m2 := round_nearest_even (shr_m mrs1) (loc_of_shr_record mrs1)) in *.
  destruct H1 as (He1 & Hb1).
  assert (Hp1 : 0 < 2 ^ (- e1)) by (apply Z.pow_pos_nonneg; lia).
  assert (Hm2 : 0 <= m2) by nia.
  pose proof (truncate_step m2 e1 Hm2 He1 Hb1) as H3.
  destruct (shr_fexp prec emax m2 e1 loc_Exact) as [mrs3 e3].
  destruct H3 as (He3 & Hb3).
  assert (Hp3 : 0 < 2 ^ (- e3)) by (apply Z.pow_pos_nonneg; lia).
  destruct (shr_m mrs3) as [ | p | p ] eqn:E3.
  - cbn [signed_between]. nia.
  - unfold emax, prec. destruct (Z.leb_spec e3 (1024 - 53)) as [ | Hgt ]; [ | lia ].
    cbn [signed_between]. auto.
  - nia.
Qed.

End RoundBetween.

Section OperationsBetween.

Lemma binary_round_between (s : bool) (m : positive) (e lo hi : Z) :
  0 <= lo -> hi < 2 ^ 53 -> e <= 0 ->
  lo * 2 ^ (- e) <= Zpos m <= hi * 2 ^ (- e) ->
  signed_between s lo hi (binary_round prec emax s m e).
Proof.
  intros Hlo Hhi He [Hl Hh]. unfold binary_round.
  pose proof (shl_align_spec m e (fexp prec emax (Zpos (digits2_pos m) + e))) as Ha.
  destruct (shl_align m e _) as [m1 e1]. destruct Ha as [He1 Hm1].
  assert (Hle : e1 <= e) by lia.
  assert (Hp : 0 < 2 ^ (- e)) by (apply Z.pow_pos_nonneg; lia).
  assert (Hq : 0 < 2 ^ (e - e1)) by (apply Z.pow_pos_nonneg; lia).
  assert (Hsplit : 2 ^ (- e1) = 2 ^ (- e) * 2 ^ (e - e1)).
  { rewrite <- Z.pow_add_r by lia. f_equal. lia. }
  apply round_between; [ lia | lia | lia | lia | | ].
  - rewrite Hsplit, Hm1. nia.
  - right. split; [ reflexivity | ]. rewrite Hsplit, Hm1. nia.
Qed.

(** [float(n)] is exact for the integers below [2^53]. *)
Lemma of_int_exact (n : Z) :
  Z.abs n < 2 ^ 53 ->
  exists x, of_int n = Ok x /\ signed_between (n <? 0) (Z.abs n) (Z.abs n) x.
Proof.
  intros Hn. unfold of_int.
  destruct n as [ | p | p ]; cbn [binary_normalize].
  - eexists. split; [ reflexivity | ]. cbn. lia.
  - pose proof (binary_round_between false p 0 (Zpos p) (Zpos p)) as H.
    cbn [Z.abs] in Hn. change (2 ^ (- 0)) with 1 in H.
    specialize (H ltac:(lia) Hn ltac:(lia) ltac:(lia)).
    destruct (binary_round prec emax false p 0) as [ | | | s m e ];
      try contradiction; eexists; (split; [ reflexivity | exact H ]).
  - pose proof (binary_round_between true p 0 (Zpos p) (Zpos p)) as H.
    cbn [Z.abs] in Hn. change (2 ^ (- 0)) with 1 in H.
    specialize (H ltac:(lia) Hn ltac:(lia) ltac:(lia)).
    destruct (binary_round prec emax true p 0) as [ | | | s m e ];
      try contradiction; eexists; (split; [ reflexivity | exact H ]).
Qed.

Lemma mul_between (sx sy : bool) (lx hx ly hy : Z) (x y : float) :
  0 <= lx -> 0 <= ly -> hx * hy < 2 ^ 53 ->
  signed_between sx lx hx x -> signed_between sy ly hy y ->
  signed_between (xorb sx sy) (lx * ly) (hx * hy) (mul x y).
Proof.
  intros Hlx Hly Hh Hx Hy.
  destruct x as [ s1 | | | s1 mx ex ]; destruct y as [ s2 | | | s2 my ey ];
    try contradiction; cbn [signed_between] in *.
  - cbn. nia.
  - destruct Hy as (_ & He & Hb). cbn.
    assert (0 < 2 ^ (- ey)) by (apply Z.pow_pos_nonneg; lia). nia.
  - destruct Hx as (_ & He & Hb). cbn.
    assert (0 < 2 ^ (- ex)) by (apply Z.pow_pos_nonneg; lia). nia.
  - destruct Hx as (-> & Hex & Hbx), Hy as (-> & Hey & Hby).
    unfold mul. cbn [SFmul].
    assert (Hpx : 0 < 2 ^ (- ex)) by (apply Z.pow_pos_nonneg; lia).
    assert (Hpy : 0 < 2 ^ (- ey)) by (apply Z.pow_pos_nonneg; lia).
    assert (Hsplit : 2 ^ (- (ex + ey)) = 2 ^ (- ex) * 2 ^ (- ey)).
    { rewrite <- Z.pow_add_r by lia. f_equal. lia. }
    assert (0 <= hx) by nia. assert (0 <= hy) by nia.
    apply round_between; [ nia | lia | lia | lia | | ].
    + rewrite Hsplit, Pos2Z.inj_mul.
      transitivity (lx * 2 ^ (- ex) * (ly * 2 ^ (- ey))); [ lia | ].
      apply Z.mul_le_mono_nonneg; nia.
    + right. split; [ reflexivity | ]. rewrite Hsplit, Pos2Z.inj_mul.
      transitivity (hx * 2 ^ (- ex) * (hy * 2 ^ (- ey))); [ | lia ].
      apply Z.mul_le_mono_nonneg; lia.
Qed.

Lemma binary_normalize_between (z e lo hi : Z) :
  0 <= lo -> hi < 2 ^ 53 -> e <= 0 ->
  lo * 2 ^ (- e) <= z <= hi * 2 ^ (- e) ->
  signed_between false lo hi (binary_normalize prec emax z e false).
Proof.
  intros Hlo Hhi He Hb.
  assert (Hp : 0 < 2 ^ (- e)) by (apply Z.pow_pos_nonneg; lia).
  destruct z as [ | p | p ]; cbn [binary_normalize].
  - cbn. nia.
  - apply binary_round_between; auto.
  - nia.
Qed.

(** The sum of two floats that are not negative. *)
Lemma add_between (lx hx ly hy : Z) (x y : float) :
  0 <= lx -> 0 <= ly -> hx + hy < 2 ^ 53 ->
  signed_between false lx hx x -> signed_between false ly hy y ->
  signed_between false (lx + ly) (hx + hy) (add x y).
Proof.
  intros Hlx Hly Hh Hx Hy.
  destruct x as [ s1 | | | s1 mx ex ]; destruct y as [ s2 | | | s2 my ey ];
    try contradiction; cbn [signed_between] in *.
  - destruct s1, s2; cbn; lia.
  - destruct Hy as (-> & He & Hb). cbn [add SFadd signed_between].
    assert (0 < 2 ^ (- ey)) by (apply Z.pow_pos_nonneg; lia).
    split; [ reflexivity | ]. split; [ exact He | ]. nia.
  - destruct Hx as (-> & He & Hb). cbn [add SFadd signed_between].
    assert (0 < 2 ^ (- ex)) by (apply Z.pow_pos_nonneg; lia).
    split; [ reflexivity | ]. split; [ exact He | ]. nia.
  - destruct Hx as (-> & Hex & Hbx), Hy as (-> & Hey & Hby).
    unfold add. cbn [SFadd cond_Zopp].
    set (ez := Z.min ex ey).
    pose proof (shl_align_spec mx ex ez) as Hax.
    pose proof (shl_align_spec my ey ez) as Hay.
    destruct (shl_align mx ex ez) as [m1 e1], (shl_align my ey ez) as [m2 e2].
    cbn [fst]. destruct Hax as [He1 Hm1], Hay as [He2 Hm2].
    assert (E1 : e1 = ez) by (unfold ez in *; lia).
    assert (E2 : e2 = ez) by (unfold ez in *; lia).
    rewrite E1 in Hm1. rewrite E2 in Hm2.
    assert (Hez : ez <= 0) by (unfold ez; lia).
    assert (Hpx : 0 < 2 ^ (- ex)) by (apply Z.pow_pos_nonneg; lia).
    assert (Hpy : 0 < 2 ^ (- ey)) by (apply Z.pow_pos_nonneg; lia).
    assert (Hqx : 0 < 2 ^ (ex - ez)) by (apply Z.pow_pos_nonneg; unfold ez; lia).
    assert (Hqy : 0 < 2 ^ (ey - ez)) by (apply Z.pow_pos_nonneg; unfold ez; lia).
    assert (Sx : 2 ^ (- ez) = 2 ^ (- ex) * 2 ^ (ex - ez)).
    { rewrite <- Z.pow_add_r by (unfold ez; lia). f_equal. lia. }
    assert (Sy : 2 ^ (- ez) = 2 ^ (- ey) * 2 ^ (ey - ez)).
    { rewrite <- Z.pow_add_r by (unfold ez; lia). f_equal. lia. }
    apply binary_normalize_between; try lia.
    rewrite Hm1, Hm2. split.
    + rewrite Z.mul_add_distr_r. apply Z.add_le_mono.
      * rewrite Sx. nia.
      * rewrite Sy. nia.
    + rewrite Z.mul_add_distr_r. apply Z.add_le_mono.
      * rewrite Sx. nia.
      * rewrite Sy. nia.
Qed.

(** The sum of a float that is not negative and of a smaller one that
    is not positive. *)
Lemma sub_between (lx hx ly hy : Z) (x y : float) :
  0 <= ly -> hy <= lx -> hx < 2 ^ 53 ->
  signed_between false lx hx x -> signed_between true ly hy y ->
  signed_between false (lx - hy) (hx - ly) (add x y).
Proof.
  intros Hly Hle Hh Hx Hy.
  destruct x as [ s1 | | | s1 mx ex ]; destruct y as [ s2 | | | s2 my ey ];
    try contradiction; cbn [signed_between] in *.
  - destruct s1, s2; cbn; lia.
  - destruct Hy as (-> & He & Hb). exfalso.
    assert (0 < 2 ^ (- ey)) by (apply Z.pow_pos_nonneg; lia).
    assert (0 < hy) by nia. lia.
  - destruct Hx as (-> & He & Hb). cbn [add SFadd signed_between].
    assert (0 < 2 ^ (- ex)) by (apply Z.pow_pos_nonneg; lia).
    split; [ reflexivity | ]. split; [ exact He | ]. nia.
  - destruct Hx as (-> & Hex & Hbx), Hy as (-> & Hey & Hby).
    unfold add. cbn [SFadd cond_Zopp].
    set (ez := Z.min ex ey).
    pose proof (shl_align_spec mx ex ez) as Hax.
    pose proof (shl_align_spec my ey ez) as Hay.
    destruct (shl_align mx ex ez) as [m1 e1], (shl_align my ey ez) as [m2 e2].
    cbn [fst]. destruct Hax as [He1 Hm1], Hay as [He2 Hm2].
    assert (E1 : e1 = ez) by (unfold ez in *; lia).
    assert (E2 : e2 = ez) by (unfold ez in *; lia).
    rewrite E1 in Hm1. rewrite E2 in Hm2.
    assert (Hez : ez <= 0) by (unfold ez; lia).
    assert (Hpx : 0 < 2 ^ (- ex)) by (apply Z.pow_pos_nonneg; lia).
    assert (Hpy : 0 < 2 ^ (- ey)) by (apply Z.pow_pos_nonneg; lia).
    assert (Hqx : 0 < 2 ^ (ex - ez)) by (apply Z.pow_pos_nonneg; unfold ez; lia).
    assert (Hqy : 0 < 2 ^ (ey - ez)) by (apply Z.pow_pos_nonneg; unfold ez; lia).
    assert (Sx : 2 ^ (- ez) = 2 ^ (- ex) * 2 ^ (ex - ez)).
    { rewrite <- Z.pow_add_r by (unfold ez; lia). f_equal. lia. }
    assert (Sy : 2 ^ (- ez) = 2 ^ (- ey) * 2 ^ (ey - ez)).
    { rewrite <- Z.pow_add_r by (unfold ez; lia). f_equal. lia. }
    apply binary_normalize_between; try lia.
    rewrite Hm1, Hm2.
    assert (Bx : lx * 2 ^ (- ez) <= Zpos mx * 2 ^ (ex - ez) <= hx * 2 ^ (- ez))
      by (rewrite Sx; nia).
    assert (By' : ly * 2 ^ (- ez) <= Zpos my * 2 ^ (ey - ez) <= hy * 2 ^ (- ez))
      by (rewrite Sy; nia).
    rewrite !Z.mul_sub_distr_r. lia.
Qed.

(** [int] of a float that lies between two integers. *)
Lemma to_int_between (s : bool) (lo hi : Z) (x : float) :
  signed_between s lo hi x ->
  exists c, to_int x = Ok c /\ lo <= Z.abs c <= hi
            /\ (s = false -> 0 <= c) /\ (s = true -> c <= 0).
Proof.
  destruct x as [ s1 | | | s1 m e ]; try contradiction; cbn [signed_between to_int].
  - intros H. exists 0. repeat split; lia.
  - intros (-> & He & Hb). eexists. split; [ reflexivity | ].
    assert (Hp : 0 < 2 ^ (- e)) by (apply Z.pow_pos_nonneg; lia).
    assert (Hq : lo <= Z.shiftl (Zpos m) e <= hi).
    { rewrite <- Z.shiftr_opp_r, Z.shiftr_div_pow2 by lia. split.
      - apply Z.div_le_lower_bound; lia.
      - apply Z.div_le_upper_bound; lia. }
    assert (0 <= Z.shiftl (Zpos m) e).
    { rewrite <- Z.shiftr_opp_r, Z.shiftr_div_pow2 by lia. apply Z.div_pos; lia. }
    destruct s; cbn [cond_Zopp]; repeat split; try lia; discriminate.
Qed.

End OperationsBetween.

Section ChannelsBetween.

(** The quotient of two ints [0 <= a < b] is a double of [[0, 1]]. *)
Lemma truediv_between (a b : Z) :
  0 <= a < b -> exists f, truediv a b = Ok f /\ signed_between false 0 1 f.
Proof.
  intros [Ha Hab]. unfold truediv.
  destruct (Z.eqb_spec b 0) as [ | _ ]; [ lia | ].
  destruct (Z.eqb_spec a 0) as [ -> | Hnz ].
  { eexists. split; [ reflexivity | ]. cbn. lia. }
  rewrite !Z.abs_eq by lia.
  destruct (Z.ltb_spec a 0); [ lia | ]. destruct (Z.ltb_spec b 0); [ lia | ].
  cbn [xorb]. unfold SFdiv_core_binary.
  rewrite !Z.add_0_r, Z.sub_0_r.
  set (e' := Z.min (fexp prec emax (Zdigits2 a - Zdigits2 b)) 0).
  replace (0 - e') with (- e') by lia.
  assert (He' : e' <= 0) by (unfold e'; lia).
  set (m' := match - e' with
             | 0 => a
             | Zpos _ => Z.shiftl a (- e')
             | Zneg _ => 0
             end).
  assert (Hm' : m' = a * 2 ^ (- e')).
  { unfold m'. destruct (- e') as [ | p | p ] eqn:E; [ cbn; lia | | lia ].
    rewrite Z.shiftl_mul_pow2 by lia. reflexivity. }
  assert (Hpos : 0 < 2 ^ (- e')) by (apply Z.pow_pos_nonneg; lia).
  pose proof (Z_div_mod m' b ltac:(lia)) as Hdm.
  destruct (Z.div_eucl m' b) as [q r]. destruct Hdm as [Hq Hr].
  assert (Hq0 : 0 <= q) by nia.
  assert (Hq1 : q < 1 * 2 ^ (- e')) by nia.
  pose proof (round_between 0 1 ltac:(lia) ltac:(lia) false q e' (new_location b r)
                Hq0 He' ltac:(lia) (or_introl Hq1)) as Hb.
  destruct (binary_round_aux prec emax false q e' (new_location b r))
    as [ s | s | | s m e ]; try contradiction; eexists; (split; [ reflexivity | exact Hb ]).
Qed.

(** With a factor of [[0, 1]], a channel stays between the channels of
    the two colours. *)
Lemma interpolate_channel_between (a b : Z) (factor : float) :
  0 <= a <= 255 -> 0 <= b <= 255 -> signed_between false 0 1 factor ->
  exists c, interpolate_channel a b factor = Ok c /\ Z.min a b <= c <= Z.max a b.
Proof.
  intros Ha Hb Hf.
  assert (P53 : 2 ^ 53 = 9007199254740992) by reflexivity.
  destruct (of_int_exact (b - a)) as (xd & Ed & Hd); [ lia | ].
  destruct (of_int_exact a) as (xa & Ea & Hxa); [ lia | ].
  destruct (Z.ltb_spec a 0) as [ | _ ]; [ lia | ]. rewrite Z.abs_eq in Hxa by lia.
  pose proof (mul_between (b - a <? 0) false (Z.abs (b - a)) (Z.abs (b - a)) 0 1
                xd factor ltac:(lia) ltac:(lia) ltac:(lia) Hd Hf) as Hp.
  rewrite Z.mul_0_r, Z.mul_1_r, xorb_false_r in Hp.
  unfold interpolate_channel, interpolate_value, int_mul, int_add.
  rewrite Ed. cbn [bind]. rewrite Ea. cbn [bind].
  destruct (Z.ltb_spec (b - a) 0) as [Hneg | Hpos].
  - pose proof (sub_between a a 0 (Z.abs (b - a)) xa (mul xd factor)
                  ltac:(lia) ltac:(lia) ltac:(lia) Hxa Hp) as Hv.
    destruct (to_int_between false _ _ _ Hv) as (c & Ec & Hc & Hc0 & _).
    exists c. split; [ exact Ec | ]. specialize (Hc0 eq_refl). lia.
  - pose proof (add_between a a 0 (Z.abs (b - a)) xa (mul xd factor)
                  ltac:(lia) ltac:(lia) ltac:(lia) Hxa Hp) as Hv.
    destruct (to_int_between false _ _ _ Hv) as (c & Ec & Hc & Hc0 & _).
    exists c. split; [ exact Ec | ]. specialize (Hc0 eq_refl). lia.
Qed.

(** A double of the unit interval is between 0 and 1. *)
Lemma unit_interval_exponent (m : positive) (e : Z) :
  in_unit_interval (S754_finite false m e) = true ->
  e < -52 \/ (e = -52 /\ Zpos m <= 2 ^ 52).
Proof.
  unfold in_unit_interval, zero, one. cbn [SFleb SFcompare andb].
  intros Hle.
  destruct (Z.compare_spec e (-52)) as [ Heq | Hlt | Hgt ].
  - right. split; [ exact Heq | ].
    change (2 ^ 52) with (Zpos 4503599627370496).
    apply Pos2Z.pos_le_pos. unfold Pos.le, Pos.compare. intros Hgt.
    rewrite Hgt in Hle. discriminate Hle.
  - left. exact Hlt.
  - discriminate Hle.
Qed.

Lemma double_digits (m : positive) (e : Z) :
  is_double (S754_finite false m e) = true -> Zpos m < 2 ^ 53.
Proof.
  unfold is_double. cbn [valid_binary]. intros Hv.
  unfold bounded, canonical_mantissa in Hv.
  apply andb_prop in Hv as [Hc _]. apply Z.eqb_eq in Hc.
  unfold fexp, emin, prec, emax in Hc.
  pose proof (digits2_pos_bounds m) as [_ Hm].
  assert (Hd : Zpos (digits2_pos m) <= 53) by lia.
  eapply Z.lt_le_trans; [ exact Hm | ]. apply Z.pow_le_mono_r; lia.
Qed.

Lemma unit_interval_between (f : float) :
  is_double f = true -> in_unit_interval f = true -> signed_between false 0 1 f.
Proof.
  destruct f as [ s | s | | s m e ].
  - intros _ _. cbn. lia.
  - intros _ H. destruct s; discriminate H.
  - intros _ H. discriminate H.
  - destruct s; [ intros _ H; discriminate H | ].
    intros Hv Hle. apply double_digits in Hv.
    apply unit_interval_exponent in Hle.
    cbn [signed_between]. split; [ reflexivity | ].
    destruct Hle as [ Hlt | [-> Hm] ].
    + split; [ lia | ].
      assert (Hpow : 2 ^ 53 <= 2 ^ (- e)) by (apply Z.pow_le_mono_r; lia).
      generalize dependent (2 ^ 53). generalize (2 ^ (- e)). intros. lia.
    + split; [ lia | ]. change (- -52) with 52.
      generalize dependent (2 ^ 52). intros. lia.
Qed.

End ChannelsBetween.

(** ** Colours stay between the end points *)

Section ColourRange.

Lemma interpolate_color_between_channels
  (colorA colorB : string) (rA gA bA rB gB bB : Z) (factor : float) :
  hex_to_rgb colorA = Ok (rA, gA, bA) -> rgb8 (rA, gA, bA) ->
  hex_to_rgb colorB = Ok (rB, gB, bB) -> rgb8 (rB, gB, bB) ->
  signed_between false 0 1 factor ->
  exists r g b,
    interpolate_color colorA colorB factor = Ok (r, g, b)
    /\ Z.min rA rB <= r <= Z.max rA rB
    /\ Z.min gA gB <= g <= Z.max gA gB
    /\ Z.min bA bB <= b <= Z.max bA bB.
Proof.
  intros EA (HrA & HgA & HbA) EB (HrB & HgB & HbB) Hf.
  destruct (interpolate_channel_between rA rB factor HrA HrB Hf) as (r & Er & Hr).
  destruct (interpolate_channel_between gA gB factor HgA HgB Hf) as (g & Eg & Hg).
  destruct (interpolate_channel_between bA bB factor HbA HbB Hf) as (b & Eb & Hb).
  exists r, g, b. unfold interpolate_color. rewrite EA, EB. cbn [bind].
  rewrite Er, Eg, Eb. cbn [bind]. auto.
Qed.

Lemma row_color_between (size y : Z) :
  0 <= y < size ->
  exists factor r g b,
    truediv y size = Ok factor
    /\ signed_between false 0 1 factor
    /\ row_color size y = Ok (r, g, b)
    /\ 91 <= r <= 112 /\ 191 <= g <= 209 /\ 181 <= b <= 199.
Proof.
  intros Hy. destruct (truediv_between y size Hy) as (f & Ef & Hf).
  destruct (interpolate_color_between_channels COLOR_START COLOR_END
              112 209 199 91 191 181 f) as (r & g & b & Ec & Hr & Hg & Hb);
    [ reflexivity | cbn; lia | reflexivity | cbn; lia | exact Hf | ].
  exists f, r, g, b. unfold row_color. rewrite Ef. cbn [bind].
  repeat split; try assumption; lia.
Qed.

End ColourRange.

(** X1. For two colours with 8-bit channels and every double factor
    of [[0, 1]], [interpolate_color] returns a colour, and each of its
    channels lies between the two corresponding channels of the given
    colours; so it is again a colour with 8-bit channels. *)
Theorem interpolate_color_stays_between
  (colorA colorB : string) (rA gA bA rB gB bB : Z) (factor : float) :
  hex_to_rgb colorA = Ok (rA, gA, bA) -> rgb8 (rA, gA, bA) ->
  hex_to_rgb colorB = Ok (rB, gB, bB) -> rgb8 (rB, gB, bB) ->
  is_double factor = true -> in_unit_interval factor = true ->
  exists r g b,
    interpolate_color colorA colorB factor = Ok (r, g, b)
    /\ Z.min rA rB <= r <= Z.max rA rB
    /\ Z.min gA gB <= g <= Z.max gA gB
    /\ Z.min bA bB <= b <= Z.max bA bB
    /\ rgb8 (r, g, b).
Proof.
  intros EA HA EB HB Hd Hu.
  destruct (interpolate_color_between_channels colorA colorB rA gA bA rB gB bB factor)
    as (r & g & b & Ec & Hr & Hg & Hb); auto using unit_interval_between.
  exists r, g, b. repeat (split; [ assumption | ]).
  cbn [rgb8] in *. lia.
Qed.

Lemma interpolate_color_stays_between_witness :
  exists r g b,
    interpolate_color COLOR_START COLOR_END half = Ok (r, g, b)
    /\ 91 <= r <= 112 /\ 191 <= g <= 209 /\ 181 <= b <= 199.
Proof.
  destruct (interpolate_color_stays_between COLOR_START COLOR_END
              112 209 199 91 191 181 half)
    as (r & g & b & Ec & Hr & Hg & Hb & _);
    [ reflexivity | cbn; lia | reflexivity | cbn; lia | reflexivity | reflexivity | ].
  exists r, g, b. split; [ exact Ec | ]. lia.
Defined.

(** X2. For every positive size, the factor of every row is a double
    of [[0, 1]], and every pixel of the canvas that
    [create_gradient_background] returns is opaque with each channel
    between that of COLOR_END and that of COLOR_START: red in
    [[91, 112]], green in [[191, 209]], blue in [[181, 199]]. *)
Theorem gradient_pixels_in_range (size : Z) :
  0 < size ->
  exists img : Image RGBA,
    create_gradient_background size = Ok img
    /\ forall x y,
        0 <= x < size -> 0 <= y < size ->
        exists factor r g b,
          truediv y size = Ok factor
          /\ signed_between false 0 1 factor
          /\ getpixel img x y = Some (r, g, b, 255)
          /\ 91 <= r <= 112 /\ 191 <= g <= 209 /\ 181 <= b <= 199.
Proof.
  intros Hs.
  destruct (gradient_background size Hs) as (img & Eimg & _ & _ & Hpix).
  exists img. split; [ exact Eimg | ].
  intros x y Hx Hy.
  destruct (row_color_between size y Hy) as (f & r & g & b & Ef & Hf & Erow & Hr & Hg & Hb).
  exists f, r, g, b. split; [ exact Ef | ]. split; [ exact Hf | ].
  split; [ apply Hpix; assumption | auto ].
Qed.

Lemma gradient_pixels_in_range_witness :
  exists (img : Image RGBA) (r g b : Z),
    create_gradient_background 180 = Ok img
    /\ getpixel img 7 60 = Some (r, g, b, 255)
    /\ 91 <= r <= 112.
Proof.
  destruct (gradient_pixels_in_range 180) as (img & Eimg & Hpix); [ lia | ].
  destruct (Hpix 7 60) as (f & r & g & b & _ & _ & Ep & Hr & _); [ lia | lia | ].
  exists img, r, g, b. auto.
Defined.

(** ** Factors that are no numbers *)

Section BadFactors.

Lemma of_int_8bit (n : Z) :
  -255 <= n <= 255 ->
  (n = 0 /\ of_int n = Ok (S754_zero false))
  \/ (n <> 0 /\ exists s m e, of_int n = Ok (S754_finite s m e)).
Proof.
  intros Hn. destruct (Z.eq_dec n 0) as [ -> | Hnz ]; [ left; auto | right ].
  split; [ exact Hnz | ].
  destruct (of_int_exact n) as (x & Ex & Hx);
    [ change (2 ^ 53) with 9007199254740992; lia | ].
  destruct x as [ s | | | s m e ]; try contradiction.
  - cbn [signed_between] in Hx. lia.
  - eauto.
Qed.

Lemma interpolate_channel_nan (a b : Z) :
  0 <= a <= 255 -> 0 <= b <= 255 ->
  interpolate_channel a b S754_nan = Raise ValueError.
Proof.
  intros Ha Hb. unfold interpolate_channel, interpolate_value, int_mul, int_add.
  destruct (of_int_8bit (b - a)) as [ [_ ->] | (_ & s & m & e & ->) ]; [ lia | | ];
    cbn [bind mul SFmul];
    (destruct (of_int_8bit a) as [ [_ ->] | (_ & s' & m' & e' & ->) ]; [ lia | | ]);
    reflexivity.
Qed.

Lemma interpolate_channel_infinity (a b : Z) (s : bool) :
  0 <= a <= 255 -> 0 <= b <= 255 ->
  interpolate_channel a b (S754_infinity s)
  = Raise (if a =? b then ValueError else OverflowError).
Proof.
  intros Ha Hb. unfold interpolate_channel, interpolate_value, int_mul, int_add.
  destruct (of_int_8bit (b - a)) as [ [Hz ->] | (Hnz & s0 & m & e & ->) ]; [ lia | | ];
    cbn [bind mul SFmul];
    (destruct (of_int_8bit a) as [ [_ ->] | (_ & s' & m' & e' & ->) ]; [ lia | | ]);
    cbn [bind add SFadd to_int];
    destruct (Z.eqb_spec a b); try lia; reflexivity.
Qed.

End BadFactors.

(** X3. For two colours with 8-bit channels, [interpolate_color]
    raises ValueError when the factor is NaN.  When the factor is an
    infinity it raises OverflowError if the red channels differ, and
    ValueError (the product [0 * inf] is NaN) if they are equal. *)
Theorem interpolate_color_rejects_nan_and_infinity
  (colorA colorB : string) (rA gA bA rB gB bB : Z) :
  hex_to_rgb colorA = Ok (rA, gA, bA) -> rgb8 (rA, gA, bA) ->
  hex_to_rgb colorB = Ok (rB, gB, bB) -> rgb8 (rB, gB, bB) ->
  interpolate_color colorA colorB S754_nan = Raise ValueError
  /\ forall s : bool,
      interpolate_color colorA colorB (S754_infinity s)
      = Raise (if rA =? rB then ValueError else OverflowError).
Proof.
  intros EA (HrA & _) EB (HrB & _). unfold interpolate_color.
  rewrite EA, EB. cbn [bind]. split.
  - rewrite interpolate_channel_nan by assumption. reflexivity.
  - intros s. rewrite interpolate_channel_infinity by assumption. reflexivity.
Qed.

Lemma interpolate_color_rejects_nan_and_infinity_witness :
  interpolate_color COLOR_START COLOR_END S754_nan = Raise ValueError
  /\ interpolate_color COLOR_START COLOR_END (S754_infinity false) = Raise OverflowError
  /\ interpolate_color COLOR_START COLOR_START (S754_infinity false) = Raise ValueError.
Proof.
  destruct (interpolate_color_rejects_nan_and_infinity COLOR_START COLOR_END
              112 209 199 91 191 181) as [Hnan Hinf];
    [ reflexivity | cbn; lia | reflexivity | cbn; lia | ].
  destruct (interpolate_color_rejects_nan_and_infinity COLOR_START COLOR_START
              112 209 199 112 209 199) as [_ Hinf'];
    [ reflexivity | cbn; lia | reflexivity | cbn; lia | ].
  split; [ exact Hnan | ]. split; [ apply (Hinf false) | apply (Hinf' false) ].
Defined.

(** ** More on the parsing of colours *)

Section ShortStrings.

Lemma substring_length (n m : nat) (s : string) :
  (String.length (String.substring n m s) <= m)%nat.
Proof.
  revert n m. induction s as [ | c s IH ]; intros n m.
  - destruct n, m; cbn; lia.
  - destruct n as [ | n ]; [ destruct m as [ | m ] | ]; cbn [String.substring String.length].
    + lia.
    + specialize (IH 0%nat m). lia.
    + apply IH.
Qed.

Lemma short_strings_complete (t : string) :
  (String.length t <= 2)%nat -> In t short_strings.
Proof.
  unfold short_strings.
  destruct t as [ | c0 [ | c1 [ | c2 t ] ] ]; cbn [String.length]; intros Hlen.
  - left. reflexivity.
  - right. apply in_or_app. left.
    apply (in_map (fun c => String c EmptyString)), all_ascii_complete.
  - right. apply in_or_app. right. apply in_flat_map.
    exists c0. split; [ apply all_ascii_complete | ].
    apply (in_map (fun c => String c0 (String c EmptyString))), all_ascii_complete.
  - lia.
Qed.

(** A property checked on the strings of at most two characters
    holds of every slice of two characters. *)
Lemma forall_slices (p : string -> bool) :
  forallb p short_strings = true ->
  forall (i : nat) (s : string), p (PyStr.slice i 2 s) = true.
Proof.
  intros H i s. rewrite forallb_forall in H.
  apply H, short_strings_complete, substring_length.
Qed.

Lemma int16_slice_range (i : nat) (s : string) (v : Z) :
  PyStr.int16 (PyStr.slice i 2 s) = Ok v -> -15 <= v <= 255.
Proof.
  assert (Hall : forallb
                   (fun t => match PyStr.int16 t with
                             | Ok v => (-15 <=? v) && (v <=? 255)
                             | Raise _ => true
                             end) short_strings = true) by (vm_compute; reflexivity).
  pose proof (forall_slices _ Hall i s) as H. cbv beta in H.
  intros E. rewrite E in H. lia.
Qed.

Lemma ascii_upper_hash (c : ascii) :
  Ascii.eqb (ascii_upper c) "#" = Ascii.eqb c "#".
Proof.
  assert (H : Bool.eqb (Ascii.eqb (ascii_upper c) "#") (Ascii.eqb c "#") = true).
  { revert c. apply forall_ascii. vm_compute. reflexivity. }
  apply eqb_prop in H. exact H.
Qed.

Lemma lstrip_hash_upper (s : string) :
  PyStr.lstrip_hash (upper s) = upper (PyStr.lstrip_hash s).
Proof.
  induction s as [ | c s IH ]; [ reflexivity | ].
  unfold upper in *. cbn [PyStr.map_chars PyStr.lstrip_hash].
  rewrite ascii_upper_hash. destruct (Ascii.eqb c "#"); [ exact IH | reflexivity ].
Qed.

Lemma slice_upper (i n : nat) (s : string) :
  PyStr.slice i n (upper s) = upper (PyStr.slice i n s).
Proof.
  unfold PyStr.slice, upper. revert i n. induction s as [ | c s IH ]; intros i n.
  - destruct i, n; reflexivity.
  - destruct i as [ | i ]; [ destruct n as [ | n ] | ];
      cbn [PyStr.map_chars String.substring].
    + reflexivity.
    + rewrite IH. reflexivity.
    + apply IH.
Qed.

Lemma int16_upper_slice (i : nat) (s : string) :
  PyStr.int16 (upper (PyStr.slice i 2 s)) = PyStr.int16 (PyStr.slice i 2 s).
Proof.
  assert (Hall : forallb
                   (fun t => match PyStr.int16 (upper t), PyStr.int16 t with
                             | Ok a, Ok b => a =? b
                             | Raise ValueError, Raise ValueError => true
                             | _, _ => false
                             end) short_strings = true) by (vm_compute; reflexivity).
  pose proof (forall_slices _ Hall i s) as H. cbv beta in H.
  destruct (PyStr.int16 (upper (PyStr.slice i 2 s))) as [ a | [ | | | ] ],
    (PyStr.int16 (PyStr.slice i 2 s)) as [ b | [ | | | ] ];
    try discriminate H; try reflexivity.
  apply Z.eqb_eq in H. congruence.
Qed.

Lemma slices_of_first_six (h : string) :
  PyStr.slice 0 2 (PyStr.slice 0 6 h) = PyStr.slice 0 2 h
  /\ PyStr.slice 2 2 (PyStr.slice 0 6 h) = PyStr.slice 2 2 h
  /\ PyStr.slice 4 2 (PyStr.slice 0 6 h) = PyStr.slice 4 2 h.
Proof.
  unfold PyStr.slice.
  destruct h as [ | c0 [ | c1 [ | c2 [ | c3 [ | c4 [ | c5 h ] ] ] ] ] ];
    cbn [String.substring]; rewrite ?substring_0_0; auto.
Qed.

End ShortStrings.

(** X4. Whatever the string, [hex_to_rgb] raises no exception other
    than ValueError, and when it returns, each channel is between -15
    and 255: a channel can be negative (a sign is accepted in a
    slice), so the result need not be a colour with 8-bit channels. *)
Theorem hex_to_rgb_results (s : string) :
  (forall e : exn, hex_to_rgb s = Raise e -> e = ValueError)
  /\ (forall r g b : Z,
         hex_to_rgb s = Ok (r, g, b) ->
         -15 <= r <= 255 /\ -15 <= g <= 255 /\ -15 <= b <= 255).
Proof.
  unfold hex_to_rgb.
  destruct (PyStr.int16 (PyStr.slice 0 2 _)) as [ r0 | e0 ] eqn:E0; cbn [bind].
  2: { split; [ intros e [= <-]; eapply int16_raises_ValueError; exact E0 | discriminate ]. }
  destruct (PyStr.int16 (PyStr.slice 2 2 _)) as [ g0 | e2 ] eqn:E2; cbn [bind].
  2: { split; [ intros e [= <-]; eapply int16_raises_ValueError; exact E2 | discriminate ]. }
  destruct (PyStr.int16 (PyStr.slice 4 2 _)) as [ b0 | e4 ] eqn:E4; cbn [bind].
  2: { split; [ intros e [= <-]; eapply int16_raises_ValueError; exact E4 | discriminate ]. }
  split; [ discriminate | ].
  intros r g b [= <- <- <-].
  apply int16_slice_range in E0, E2, E4. auto.
Qed.

Lemma hex_to_rgb_results_witness :
  hex_to_rgb "-f-f-f" = Ok (-15, -15, -15)
  /\ (-15 <= -15 <= 255)
  /\ hex_to_rgb "12345z" = Raise ValueError.
Proof.
  destruct (hex_to_rgb_results "-f-f-f") as [_ Hrange].
  destruct (hex_to_rgb_results "12345z") as [Hexn _].
  split; [ reflexivity | ]. split.
  - apply (Hrange (-15) (-15) (-15)). reflexivity.
  - destruct (hex_to_rgb "12345z") as [ c | e ] eqn:E; [ discriminate E | ].
    f_equal. apply Hexn. reflexivity.
Defined.

(** X5. The result of [hex_to_rgb] depends only on the first six
    characters that follow the leading ['#'] characters: two strings
    that agree on them give the same result, be it a colour or an
    exception. *)
Theorem hex_to_rgb_reads_six (s1 s2 : string) :
  PyStr.slice 0 6 (PyStr.lstrip_hash s1) = PyStr.slice 0 6 (PyStr.lstrip_hash s2) ->
  hex_to_rgb s1 = hex_to_rgb s2.
Proof.
  intros H. unfold hex_to_rgb.
  destruct (slices_of_first_six (PyStr.lstrip_hash s1)) as (A0 & A2 & A4).
  destruct (slices_of_first_six (PyStr.lstrip_hash s2)) as (B0 & B2 & B4).
  rewrite <- A0, <- A2, <- A4, <- B0, <- B2, <- B4, H. reflexivity.
Qed.

Lemma hex_to_rgb_reads_six_witness :
  hex_to_rgb "###5bbfb5 and more" = hex_to_rgb "5bbfb5".
Proof. apply hex_to_rgb_reads_six. reflexivity. Defined.

(** X6. [hex_to_rgb] does not distinguish the case of the ASCII
    letters: replacing the lower-case letters of a string by the
    upper-case ones changes neither the colour returned nor the
    exception raised. *)
Theorem hex_to_rgb_ignores_case (s : string) :
  hex_to_rgb (upper s) = hex_to_rgb s.
Proof.
  unfold hex_to_rgb. rewrite lstrip_hash_upper, !slice_upper, !int16_upper_slice.
  reflexivity.
Qed.

(** ** The two scalings at every size *)

Section ScalingBounds.

(** An int below [2^53] times a positive literal, truncated: the
    result lies between two integers that enclose the exact product. *)
Lemma int_mul_literal_between (n lo hi : Z) (m : positive) (e : Z) :
  0 < n < 2 ^ 53 -> e <= 0 -> 0 <= lo -> hi < 2 ^ 53 ->
  lo * 2 ^ (- e) <= n * Zpos m <= hi * 2 ^ (- e) ->
  exists r,
    (v <- int_mul n (S754_finite false m e) ;; to_int v) = Ok r /\ lo <= r <= hi.
Proof.
  intros Hn He Hlo Hhi [Hl Hh].
  destruct (of_int_exact n) as (x & Ex & Hx); [ lia | ].
  replace (n <? 0) with false in Hx by (symmetry; apply Z.ltb_ge; lia).
  rewrite Z.abs_eq in Hx by lia.
  unfold int_mul. rewrite Ex. cbn [bind].
  assert (Hv : signed_between false lo hi (mul x (S754_finite false m e))).
  { destruct x as [ s | | | s mx ex ]; try contradiction; cbn [signed_between] in Hx.
    - lia.
    - destruct Hx as (-> & Hex & Hbx). unfold mul. cbn [SFmul xorb].
      assert (Hpx : 0 < 2 ^ (- ex)) by (apply Z.pow_pos_nonneg; lia).
      assert (Hpe : 0 < 2 ^ (- e)) by (apply Z.pow_pos_nonneg; lia).
      assert (Hsplit : 2 ^ (- (ex + e)) = 2 ^ (- ex) * 2 ^ (- e)).
      { rewrite <- Z.pow_add_r by lia. f_equal. lia. }
      assert (Emx : Zpos mx = n * 2 ^ (- ex)) by lia.
      apply round_between; [ lia | lia | lia | lia | | ].
      + rewrite Hsplit, Pos2Z.inj_mul, Emx.
        replace (lo * (2 ^ (- ex) * 2 ^ (- e))) with (2 ^ (- ex) * (lo * 2 ^ (- e))) by ring.
        replace (n * 2 ^ (- ex) * Zpos m) with (2 ^ (- ex) * (n * Zpos m)) by ring.
        apply Z.mul_le_mono_nonneg_l; lia.
      + right. split; [ reflexivity | ].
        rewrite Hsplit, Pos2Z.inj_mul, Emx.
        replace (hi * (2 ^ (- ex) * 2 ^ (- e))) with (2 ^ (- ex) * (hi * 2 ^ (- e))) by ring.
        replace (n * 2 ^ (- ex) * Zpos m) with (2 ^ (- ex) * (n * Zpos m)) by ring.
        apply Z.mul_le_mono_nonneg_l; lia. }
  destruct (to_int_between false lo hi _ Hv) as (c & Ec & Habs & Hpos & _).
  exists c. split; [ exact Ec | ]. specialize (Hpos eq_refl). lia.
Qed.

Lemma corner_radius_between (size : Z) :
  0 < size < 2 ^ 49 ->
  exists radius, corner_radius size = Ok radius /\ size / 5 <= radius <= size / 5 + 1.
Proof.
  intros Hs. unfold corner_radius, lit_0_2.
  pose proof (Z.div_mod size 5 ltac:(lia)) as Hdiv.
  pose proof (Z.mod_pos_bound size 5 ltac:(lia)) as Hmod.
  apply int_mul_literal_between; lia.
Qed.

Lemma text_font_size_between (size : Z) :
  0 < size < 2 ^ 49 ->
  exists font_size,
    text_font_size size = Ok font_size
    /\ 45 * size / 100 <= font_size <= 45 * size / 100 + 1.
Proof.
  intros Hs. unfold text_font_size, lit_0_45.
  pose proof (Z.div_mod (45 * size) 100 ltac:(lia)) as Hdiv.
  pose proof (Z.mod_pos_bound (45 * size) 100 ltac:(lia)) as Hmod.
  apply int_mul_literal_between; lia.
Qed.

Lemma corner_radius_small (size : Z) :
  0 < size <= 4096 -> corner_radius size = Ok (size / 5).
Proof.
  intros Hs.
  assert (Hall : forallb (fun s => (s =? 0) || returns (corner_radius s) (s / 5))
                   (range 4097) = true) by (vm_compute; reflexivity).
  pose proof (forall_range 4097 _ Hall size ltac:(lia)) as H. cbv beta in H.
  destruct (Z.eqb_spec size 0); [ lia | ]. cbn [orb] in H.
  destruct (corner_radius size) as [ r | ]; cbn [returns] in H; [ | discriminate H ].
  apply Z.eqb_eq in H. congruence.
Qed.

End ScalingBounds.

(** X7. For every size from 1 to below [2^49], the two scalings of
    [generate_icon] and [draw_text] succeed: the corner radius
    [int(size * 0.2)] is the integer quotient of the size by 5, or one
    more, and the font size [int(size * 0.45)] is the integer quotient
    of [45 * size] by 100, or one more.  The radius is never more than
    half the size, so Pillow does not reduce it. *)
Theorem scalings_within_one (size : Z) :
  0 < size < 2 ^ 49 ->
  exists radius font_size : Z,
    corner_radius size = Ok radius
    /\ text_font_size size = Ok font_size
    /\ size / 5 <= radius <= size / 5 + 1
    /\ 45 * size / 100 <= font_size <= 45 * size / 100 + 1
    /\ 2 * radius <= size
    /\ clamp_radius 0 0 size size radius = radius.
Proof.
  intros Hs.
  destruct (corner_radius_between size Hs) as (radius & Er & Hr).
  destruct (text_font_size_between size Hs) as (font_size & Ef & Hf).
  exists radius, font_size.
  split; [ exact Er | ]. split; [ exact Ef | ]. split; [ exact Hr | ].
  split; [ exact Hf | ].
  assert (H2 : 2 * radius <= size).
  { pose proof (Z.mul_div_le size 5 ltac:(lia)) as Hq.
    pose proof (Z.div_pos size 5 ltac:(lia) ltac:(lia)) as Hq0.
    destruct (Z_le_gt_dec size 4096) as [Hle | Hgt].
    - rewrite corner_radius_small in Er by lia. injection Er as <-. lia.
    - lia. }
  split; [ exact H2 | ].
  pose proof (Z.div_le_lower_bound size 2 radius ltac:(lia) H2) as Hhalf.
  pose proof (Z.div_pos size 5 ltac:(lia) ltac:(lia)) as Hq0.
  unfold clamp_radius. rewrite !Z.sub_0_r. lia.
Qed.

Lemma scalings_within_one_witness :
  exists radius font_size : Z,
    corner_radius 1000000 = Ok radius
    /\ text_font_size 1000000 = Ok font_size
    /\ 200000 <= radius <= 200001
    /\ 450000 <= font_size <= 450001.
Proof.
  destruct (scalings_within_one 1000000) as (radius & font_size & Er & Ef & Hr & Hf & _);
    [ lia | ].
  exists radius, font_size. split; [ exact Er | ]. split; [ exact Ef | ].
  change (1000000 / 5) with 200000 in Hr. change (45 * 1000000 / 100) with 450000 in Hf.
  split; [ exact Hr | exact Hf ].
Defined.

(** ** Rounded corners on any canvas *)

Section Corners.

(** The columns and the rows that keep away from the two sides by the
    radius are inside the rounded rectangle. *)
Lemma in_rounded_rectangle_cross (size radius x y : Z) :
  0 <= x < size -> 0 <= y < size ->
  radius <= x <= size - radius \/ radius <= y <= size - radius ->
  in_rounded_rectangle 0 0 size size radius x y = true.
Proof.
  intros Hx Hy Hcross. unfold in_rounded_rectangle.
  pose proof (Z.mul_div_le size 2 ltac:(lia)) as Hhalf.
  pose proof (Z.div_pos size 2 ltac:(lia) ltac:(lia)) as Hhalf0.
  assert (Hr : 0 <= clamp_radius 0 0 size size radius
               /\ 2 * clamp_radius 0 0 size size radius <= size
               /\ (clamp_radius 0 0 size size radius <= radius
                   \/ clamp_radius 0 0 size size radius = 0)).
  { unfold clamp_radius. rewrite !Z.sub_0_r. lia. }
  set (r := clamp_radius 0 0 size size radius) in *. cbv zeta.
  destruct Hr as (Hr0 & Hr2 & Hrle). rewrite !Z.add_0_l.
  set (cx := Z.max r (Z.min x (size - r))).
  set (cy := Z.max r (Z.min y (size - r))).
  assert (Hcx : - r <= x - cx <= r) by (unfold cx; lia).
  assert (Hcy : - r <= y - cy <= r) by (unfold cy; lia).
  assert (Hzero : x - cx = 0 \/ y - cy = 0) by (unfold cx, cy; lia).
  repeat (apply andb_true_intro; split); try apply Z.leb_le; try lia.
  destruct Hzero as [ -> | -> ]; nia.
Qed.

Lemma add_rounded_corners_not_square (img : Image RGBA) (radius : Z) :
  height img <> width img ->
  add_rounded_corners img radius = Raise ValueError.
Proof.
  intros Hne. unfold add_rounded_corners, Pillow.new. cbv zeta.
  destruct (Z.ltb_spec (width img) 0) as [ | Hw ]; [ reflexivity | ].
  cbn [orb bind]. unfold rounded_rectangle.
  destruct (Z.ltb_spec (width img) 0); [ lia | ]. cbn [orb bind].
  unfold putalpha, paint. cbn [width height].
  rewrite Z.eqb_refl. destruct (Z.eqb_spec (height img) (width img)); [ contradiction | ].
  reflexivity.
Qed.

End Corners.

(** X8. [add_rounded_corners] accepts square canvases only: on any
    other one it raises ValueError.  On a square canvas and for a
    radius that is not negative, it keeps the dimensions and the red,
    green and blue of every pixel, and the new alpha of a pixel is 0
    or 255 whatever its alpha was. *)
Theorem add_rounded_corners_result (img : Image RGBA) (radius : Z) :
  (height img <> width img ->
   add_rounded_corners img radius = Raise ValueError)
  /\ (height img = width img -> 0 <= width img -> 0 <= radius ->
      exists img' : Image RGBA,
        add_rounded_corners img radius = Ok img'
        /\ width img' = width img
        /\ height img' = height img
        /\ forall x y : Z,
            exists r g b a a' : Z,
              pixel img x y = (r, g, b, a)
              /\ pixel img' x y = (r, g, b, a')
              /\ (a' = 0 \/ a' = 255)).
Proof.
  split; [ apply add_rounded_corners_not_square | ].
  intros Hh Hw _.
  destruct (add_rounded_corners_ok img radius Hw Hh)
    as (mask & img' & Em & E & Hw' & Hh' & Hpix).
  destruct (corner_mask_ok (width img) radius Hw) as (mask' & Em' & _ & _ & Hmpix).
  assert (mask' = mask) by congruence. subst mask'.
  exists img'. split; [ exact E | ]. split; [ exact Hw' | ]. split; [ exact Hh' | ].
  intros x y. specialize (Hpix x y). specialize (Hmpix x y).
  destruct (pixel img x y) as [ [ [r g] b ] a ].
  exists r, g, b, a, (pixel mask x y). split; [ reflexivity | ].
  split; [ exact Hpix | ]. rewrite Hmpix.
  destruct (_ && _); auto.
Qed.

Lemma add_rounded_corners_result_witness :
  add_rounded_corners
    {| width := 4; height := 3; pixel := fun _ _ => (1, 2, 3, 4) |} 1
  = Raise ValueError
  /\ exists img' : Image RGBA,
      add_rounded_corners
        {| width := 4; height := 4; pixel := fun _ _ => (1, 2, 3, 4) |} 1
      = Ok img'
      /\ width img' = 4.
Proof.
  split.
  - apply add_rounded_corners_result. cbn [width height]. lia.
  - destruct (add_rounded_corners_result
                {| width := 4; height := 4; pixel := fun _ _ => (1, 2, 3, 4) |} 1)
      as (_ & H).
    destruct H as (img' & E & Hw & _); [ reflexivity | cbn [width]; lia | lia | ].
    exists img'. split; [ exact E | exact Hw ].
Defined.

(** X9. On a square canvas and for a radius that is not negative,
    [add_rounded_corners] makes fully opaque every pixel whose column,
    or whose row, lies strictly between [radius] and [size - radius]:
    only pixels in the four corner squares can become transparent, and
    with radius 0 none does.  The colour of such a pixel is kept. *)
Theorem rounded_corners_keep_the_cross (img : Image RGBA) (radius x y : Z) :
  height img = width img -> 0 <= radius ->
  0 <= x < width img -> 0 <= y < width img ->
  radius = 0 \/ radius < x < width img - radius \/ radius < y < width img - radius ->
  exists (img' : Image RGBA) (r g b a : Z),
    add_rounded_corners img radius = Ok img'
    /\ pixel img x y = (r, g, b, a)
    /\ getpixel img' x y = Some (r, g, b, 255).
Proof.
  intros Hh Hr Hx Hy Hcross.
  assert (Hcross' : radius <= x <= width img - radius
                    \/ radius <= y <= width img - radius) by lia.
  destruct (add_rounded_corners_ok img radius ltac:(lia) Hh)
    as (mask & img' & Em & E & Hw' & Hh' & Hpix).
  destruct (corner_mask_ok (width img) radius ltac:(lia)) as (mask' & Em' & _ & _ & Hmpix).
  assert (mask' = mask) by congruence. subst mask'.
  specialize (Hpix x y). specialize (Hmpix x y).
  rewrite (in_rounded_rectangle_cross (width img) radius x y Hx Hy Hcross') in Hmpix.
  destruct (pixel img x y) as [ [ [r g] b ] a ].
  exists img', r, g, b, a. split; [ exact E | ]. split; [ reflexivity | ].
  unfold getpixel, inside. rewrite Hw', Hh', Hh, Hpix, Hmpix.
  destruct (Z.leb_spec 0 x), (Z.ltb_spec x (width img)),
    (Z.leb_spec 0 y), (Z.ltb_spec y (width img)); try lia.
  reflexivity.
Qed.

Lemma rounded_corners_keep_the_cross_witness :
  exists (img' : Image RGBA),
    add_rounded_corners
      {| width := 16; height := 16; pixel := fun _ _ => (1, 2, 3, 4) |} 3
    = Ok img'
    /\ getpixel img' 4 0 = Some (1, 2, 3, 255).
Proof.
  destruct (rounded_corners_keep_the_cross
              {| width := 16; height := 16; pixel := fun _ _ => (1, 2, 3, 4) |} 3 4 0)
    as (img' & r & g & b & a & E & Hp & Hg);
    [ reflexivity | lia | cbn [width]; lia | cbn [width]; lia | cbn [width]; lia | ].
  exists img'. split; [ exact E | ].
  cbn [pixel] in Hp. injection Hp as <- <- <- <-. exact Hg.
Defined.

(** ** The position of the text *)

(** X10. [draw_text] draws the text in white with the font selected
    for the size [int(size * 0.45)], at a position that centres the
    ink of the text vertically: the margins above and below it differ
    by one pixel at most.  Horizontally the left edge of the bounding
    box is not taken into account, so that the right margin exceeds
    the left one by [-2 * bbox[0]], or by one more. *)
Theorem draw_text_centres (fonts : Fonts) (img : Image RGBA) (text : string)
  (size font_size bbox0 bbox1 bbox2 bbox3 : Z) :
  text_font_size size = Ok font_size ->
  textbbox (select_font fonts font_size) text = (bbox0, bbox1, bbox2, bbox3) ->
  exists x y : Z,
    draw_text fonts img text size
    = Ok (draw_text_at img x y text (255, 255, 255) (select_font fonts font_size))
    /\ (let top := y + bbox1 in
        let bottom := size - (y + bbox3) in
        0 <= bottom - top <= 1)
    /\ (let left := x + bbox0 in
        let right := size - (x + bbox2) in
        - 2 * bbox0 <= right - left <= - 2 * bbox0 + 1).
Proof.
  intros Efs Ebox. unfold draw_text. rewrite Efs. cbn [bind]. rewrite Ebox.
  change (hex_to_rgb COLOR_TEXT) with (Ok (A := ColorRGB) (255, 255, 255)).
  cbn [bind]. eexists _, _. split; [ reflexivity | ]. cbv zeta.
  pose proof (Z.div_mod (size - (bbox2 - bbox0)) 2 ltac:(lia)) as Hx.
  pose proof (Z.mod_pos_bound (size - (bbox2 - bbox0)) 2 ltac:(lia)) as Hxm.
  pose proof (Z.div_mod (size - (bbox3 - bbox1)) 2 ltac:(lia)) as Hy.
  pose proof (Z.mod_pos_bound (size - (bbox3 - bbox1)) 2 ltac:(lia)) as Hym.
  lia.
Qed.

Lemma draw_text_centres_witness :
  let fonts :=
    {| truetype := fun _ _ => Raise OSError;
       load_default := {| textbbox := fun _ => (1, 3, 12, 11);
                          render := fun _ _ _ _ old => old |} |} in
  exists x y : Z,
    draw_text fonts {| width := 16; height := 16; pixel := fun _ _ => (0, 0, 0, 0) |}
      "TB" 16
    = Ok (draw_text_at {| width := 16; height := 16; pixel := fun _ _ => (0, 0, 0, 0) |}
            x y "TB" (255, 255, 255) (load_default fonts))
    /\ 0 <= (16 - (y + 11)) - (y + 3) <= 1
    /\ -2 <= (16 - (x + 12)) - (x + 1) <= -1.
Proof.
  intros fonts.
  destruct (draw_text_centres fonts
              {| width := 16; height := 16; pixel := fun _ _ => (0, 0, 0, 0) |}
              "TB" 16 7 1 3 12 11) as (x & y & E & Hv & Hh);
    [ vm_compute; reflexivity | reflexivity | ].
  exists x, y. split; [ exact E | ]. cbv zeta in Hv, Hh. split; [ exact Hv | exact Hh ].
Defined.

(** ** One icon at any size, and a second run *)

Section Icons.

Variable fonts : Fonts.


(** The image of an icon depends on the fonts and on the
    configuration only. *)
Lemma generate_icon_fixed (config : IconSpec) :
  0 < size config ->
  is_ok (corner_radius (size config)) = true ->
  is_ok (text_font_size (size config)) = true ->
  exists img : Image RGBA,
    width img = size config
    /\ height img = size config
    /\ forall (output_dir : Path) (w : World),
        generate_icon fonts config output_dir w
        = Ok (written output_dir w (config, img)).
Proof.
  intros Hs Hr Hf.
  destruct (corner_radius (size config)) as [ radius | ] eqn:Er; [ | discriminate ].
  destruct (text_font_size (size config)) as [ fs | ] eqn:Ef; [ | discriminate ].
  destruct (generate_icon_ok fonts config [] empty_world radius fs Hs Er Ef)
    as (img0 & img1 & img & E0 & E1 & E2 & Hw & Hh & _).
  exists img. split; [ exact Hw | ]. split; [ exact Hh | ].
  intros output_dir w. unfold generate_icon. rewrite E0. cbn [bind].
  rewrite Er. cbn [bind]. rewrite E1. cbn [bind]. rewrite E2. reflexivity.
Qed.

Lemma generate_all_fixed (configs : list IconSpec) :
  Forall (fun config => 0 < size config
                        /\ is_ok (corner_radius (size config)) = true
                        /\ is_ok (text_font_size (size config)) = true) configs ->
  exists imgs : list (Image RGBA),
    length imgs = length configs
    /\ forall (output_dir : Path) (w : World),
        for_each (fun w config => generate_icon fonts config output_dir w) configs w
        = Ok (fold_left (written output_dir) (combine configs imgs) w).
Proof.
  intros Hall. induction Hall as [ | config configs (Hs & Hr & Hf) _ IH ].
  - exists []. split; reflexivity.
  - destruct (generate_icon_fixed config Hs Hr Hf) as (img & _ & _ & Egen).
    destruct IH as (imgs & Hlen & Efor).
    exists (img :: imgs). split; [ cbn [length]; congruence | ].
    intros output_dir w. cbn [for_each]. rewrite Egen. cbn [bind combine fold_left].
    apply Efor.
Qed.

Lemma main_run_fixed (script_dir : Path) :
  exists i16 i32 i180 i192 i512 : Image RGBA,
    forall w : World,
      main fonts script_dir w
      = Ok (final_world (icons_dir script_dir) w i16 i32 i180 i192 i512).
Proof.
  destruct (generate_all_fixed ICON_CONFIGS icon_configs_scale) as (imgs & Hlen & Efor).
  unfold ICON_CONFIGS in Hlen. cbn [length] in Hlen.
  destruct imgs as [ | i16 [ | i32 [ | i180 [ | i192 [ | i512 [ | i imgs ] ] ] ] ] ];
    try discriminate Hlen.
  exists i16, i32, i180, i192, i512. intros w.
  set (d := icons_dir script_dir).
  set (w0 := print Generating (print (IconsDirectory d) (mkdir d w))).
  unfold main. cbv zeta. fold (icons_dir script_dir). fold d. fold w0.
  rewrite Efor. cbn [bind]. f_equal.
  unfold final_world. apply world_ext.
  - unfold w0, ICON_CONFIGS. cbn [combine fold_left written print save mkdir dirs].
    reflexivity.
  - unfold w0, ICON_CONFIGS.
    cbn [combine fold_left written print save mkdir files name size]. reflexivity.
  - unfold w0, ICON_CONFIGS.
    cbn [combine fold_left written print save mkdir stdout name size].
    rewrite <- !app_assoc. reflexivity.
Qed.

End Icons.



(** X12. A second run of [main] with the same fonts leaves the files
    and the directories as the first run left them: each of the five
    icons is written again with the same image, no other file is
    touched, and an existing icons directory is not an error.  Only
    the nine lines of a run are printed again. *)
Theorem main_twice (fonts : Fonts) (script_dir : Path) (w : World) :
  exists (w1 w2 : World) (out : list Line),
    main fonts script_dir w = Ok w1
    /\ main fonts script_dir w1 = Ok w2
    /\ files w2 = files w1
    /\ dirs w2 = dirs w1
    /\ stdout w1 = stdout w ++ out
    /\ stdout w2 = stdout w1 ++ out
    /\ length out = 9%nat.
Proof.
  destruct (main_run_fixed fonts script_dir) as (i16 & i32 & i180 & i192 & i512 & Emain).
  set (d := icons_dir script_dir) in *.
  set (w1 := final_world d w i16 i32 i180 i192 i512).
  exists w1, (final_world d w1 i16 i32 i180 i192 i512). eexists.
  split; [ apply Emain | ]. split; [ apply Emain | ].
  destruct (final_world_files d w i16 i32 i180 i192 i512) as (F16 & F32 & F180 & F192 & F512).
  fold w1 in F16, F32, F180, F192, F512.
  split; [ | split; [ | split; [ | split ] ] ].
  - unfold final_world at 1. cbn [files].
    rewrite (insert_id (files w1) _ _ F16), (insert_id (files w1) _ _ F32),
      (insert_id (files w1) _ _ F180), (insert_id (files w1) _ _ F192),
      (insert_id (files w1) _ _ F512).
    reflexivity.
  - unfold w1, final_world. cbn [dirs].
    rewrite (assoc_L (∪)), (idemp_L (∪)). reflexivity.
  - unfold w1, final_world. cbn [stdout]. reflexivity.
  - unfold final_world at 1. cbn [stdout]. reflexivity.
  - reflexivity.
Qed.
